(** * BiciMad: link resolution, cleaning and usage statistics

    A shallow embedding of [bicimad/urlemt.py] (class [UrlEMT]) and
    [bicimad/bicimad.py] (class [BiciMad]), followed by the properties
    proved about them.

    Conventions of the embedding:
    - Python [int] is [Z]; Python [str] is [string], read as the UTF-8
      bytes of the text (every ASCII character is one byte, and no byte of
      a multi-byte character is ASCII);
    - Python [float] is an IEEE-754 binary64 value, [spec_float] with
      [prec = 53] and [emax = 1024];
    - a raised exception is the [Raise] case of [result];
    - a Python [set] is a list without duplicates; only membership in it
      is meaningful, its order stands for the unspecified iteration order;
    - the functions of [re] and [pandas] that the code calls are modelled
      next to their callers. *)

From Stdlib Require Import ZArith List String Ascii Bool Lia Arith.
From Stdlib Require Import DecimalString QArith SpecFloat.
Import ListNotations.

Open Scope string_scope.
Open Scope Z_scope.

(* ================================================================= *)
(** * Part I: definitions *)
(* ================================================================= *)

(** ** Python values shared by both modules *)

Module Py.

Inductive exn : Type :=
| ValueError (msg : string)
| OverflowError (msg : string)
| ConnectionError (msg : string).

Inductive result (A : Type) : Type :=
| Ok (a : A)
| Raise (e : exn).
Arguments Ok {A} a.
Arguments Raise {A} e.

Definition bind {A B : Type} (r : result A) (k : A -> result B) : result B :=
  match r with
  | Ok a => k a
  | Raise e => Raise e
  end.

(** [str(z)] for an [int]. *)
Definition str_int (z : Z) : string :=
  NilZero.string_of_int (Z.to_int z).

(** [f"{z:02d}"]: sign-aware zero padding to width two. *)
Definition fmt_02d (z : Z) : string :=
  if z <? 0 then str_int z
  else if z <? 10 then "0" ++ str_int z
  else str_int z.

(** [pat in s] for two strings. *)
Fixpoint contains (pat s : string) : bool :=
  if prefix pat s then true
  else match s with
       | EmptyString => false
       | String _ s' => contains pat s'
       end.

(** [s[n:]] *)
Fixpoint drop (n : nat) (s : string) : string :=
  match n, s with
  | S n', String _ s' => drop n' s'
  | _, _ => s
  end.

(** Every character of [s] satisfies [P]. *)
Fixpoint all_chars (P : ascii -> bool) (s : string) : bool :=
  match s with
  | EmptyString => true
  | String c s' => P c && all_chars P s'
  end.

(** [s.endswith(suf)]. *)
Fixpoint endswith (s suf : string) : bool :=
  if String.eqb s suf then true
  else match s with
       | EmptyString => false
       | String _ s' => endswith s' suf
       end.

(** [set(xs)], for elements compared by [eqb]: the first occurrence of
    each element is kept. *)
Fixpoint set_of {A : Type} (eqb : A -> A -> bool) (xs : list A) : list A :=
  match xs with
  | [] => []
  | x :: xs' => x :: filter (fun y => negb (eqb x y)) (set_of eqb xs')
  end.

End Py.

Import Py.

Notation "x <- r ;; k" := (Py.bind r (fun x => k))
  (at level 61, r at next level, right associativity).

(** ** The fragment of [re] used by [UrlEMT.get_links] *)

Module Re.

(** A character class is a list of ranges, a single character [c]
    being the range from [c] to [c].  [Lit c] is the character itself,
    [OneOf rs] is the set [[...]] and [NotIn rs] the negated set
    [[^...]]. *)
Inductive atom : Type :=
| Lit (c : ascii)
| OneOf (rs : list (ascii * ascii))
| NotIn (rs : list (ascii * ascii)).

Inductive quant : Type :=
| One       (* a  *)
| Opt       (* a? , greedy *)
| Plus.     (* a+ , greedy *)

(** One pattern element; [in_group] says whether it lies inside the
    (single) capturing group. *)
Record item : Type := Item {
  it_atom : atom;
  it_quant : quant;
  in_group : bool
}.

Definition pattern : Type := list item.

Definition in_range (c : ascii) (r : ascii * ascii) : bool :=
  (nat_of_ascii (fst r) <=? nat_of_ascii c)%nat
  && (nat_of_ascii c <=? nat_of_ascii (snd r))%nat.

Definition mem (c : ascii) (rs : list (ascii * ascii)) : bool :=
  existsb (in_range c) rs.

Definition char (c : ascii) : ascii * ascii := (c, c).

Definition atom_match (a : atom) (c : ascii) : bool :=
  match a with
  | Lit c' => Ascii.eqb c c'
  | OneOf rs => mem c rs
  | NotIn rs => negb (mem c rs)
  end.

(** The result of a match: the text of group 1 and the number of
    characters the whole match consumed. *)
Definition mres : Type := (string * nat)%type.

Definition took (g : bool) (c : ascii) (r : mres) : mres :=
  (if g then String c (fst r) else fst r, S (snd r)).

(** Backtracking match of [p] at the start of [s]; greedy quantifiers
    try the longer alternative first. *)
Fixpoint match_here (p : pattern) (s : string) {struct p} : option mres :=
  match p with
  | [] => Some (EmptyString, 0%nat)
  | Item a One g :: p' =>
      match s with
      | String c s' =>
          if atom_match a c then option_map (took g c) (match_here p' s')
          else None
      | EmptyString => None
      end
  | Item a Opt g :: p' =>
      match s with
      | String c s' =>
          if atom_match a c then
            match match_here p' s' with
            | Some r => Some (took g c r)
            | None => match_here p' s
            end
          else match_here p' s
      | EmptyString => match_here p' s
      end
  | Item a Plus g :: p' =>
      (fix plus (s : string) : option mres :=
         match s with
         | String c s' =>
             if atom_match a c then
               match plus s' with
               | Some r => Some (took g c r)
               | None => option_map (took g c) (match_here p' s')
               end
             else None
         | EmptyString => None
         end) s
  end.

(** The scan shared by [findall] and the like, for a matcher [m] that
    tells, at a position, the text of group 1 and the length of the
    match: go left to right, report group 1 of each match and resume
    after the match (one character further when the match is empty).
    [skip] counts the characters still covered by the previous match. *)
Fixpoint scan (m : string -> option mres) (skip : nat) (s : string)
  : list string :=
  match skip with
  | S k =>
      match s with
      | String _ s' => scan m k s'
      | EmptyString => []
      end
  | O =>
      match m s with
      | Some (cap, n) =>
          cap :: match s with
                 | String _ s' => scan m (Nat.pred n) s'
                 | EmptyString => []
                 end
      | None =>
          match s with
          | String _ s' => scan m 0%nat s'
          | EmptyString => []
          end
      end
  end.

(** [re.findall(p, s)] for a pattern with one group. *)
Definition findall (p : pattern) (s : string) : list string :=
  scan (match_here p) 0%nat s.

(** [p.search(s)], as a truth value: a match at some position. *)
Fixpoint search (p : pattern) (s : string) : bool :=
  match match_here p s with
  | Some _ => true
  | None =>
      match s with
      | String _ s' => search p s'
      | EmptyString => false
      end
  end.

Definition lits (s : string) : pattern :=
  map (fun c => Item (Lit c) One false) (list_ascii_of_string s).

End Re.

(** ** [bicimad/urlemt.py] *)

Module UrlEMT.

Definition EMT : string := "https://opendata.emtmadrid.es".
Definition GENERAL : string := "/Datos-estaticos/Datos-generales-(1)".

(** The double quote character (code 34). *)
Definition dquote : ascii := "034"%char.

(** The characters excluded by the negated class of the pattern: the
    single quote, the double quote, the space and [>]. *)
Definition href_stops : list (ascii * ascii) :=
  map Re.char ["'"; dquote; " "; ">"]%char.

(** The pattern of [get_links]: the literal [href=], an optional single
    or double quote, and group 1: one or more characters outside
    [href_stops]. *)
Definition href_pattern : Re.pattern :=
  (Re.lits "href="
     ++ [Re.Item (Re.OneOf (map Re.char ["'"; dquote]%char)) Re.Opt false;
         Re.Item (Re.NotIn href_stops) Re.Plus true])%list.

Definition get_links (html : string) : list string :=
  let links := Re.findall href_pattern html in
  set_of String.eqb links.

(** [calendar.month_name], an array whose entry 0 is empty. *)
Definition month_names : list string :=
  [""; "January"; "February"; "March"; "April"; "May"; "June"; "July";
   "August"; "September"; "October"; "November"; "December"].

Definition month_name (month : Z) : string :=
  nth (Z.to_nat month) month_names "".

(** [f"trips_{year:02d}_{month:02d}_{month_name}-csv.aspx"] *)
Definition file_pattern (month year : Z) : string :=
  "trips_" ++ fmt_02d year ++ "_" ++ fmt_02d month ++ "_"
    ++ month_name month ++ "-csv.aspx".

(** The loop [for url in self._valid_urls: if pattern in url: return url]
    over the links in iteration order. *)
Fixpoint first_containing (pattern : string) (urls : list string) : option string :=
  match urls with
  | [] => None
  | url :: rest =>
      if contains pattern url then Some url
      else first_containing pattern rest
  end.

(** The pattern of [select_valid_urls]: [trips_], two digits, [_], two
    digits, [_], one or more word characters or hyphens, [.aspx].  The
    digits and word characters are the ASCII ones. *)
Definition digit : Re.atom := Re.OneOf [("0", "9")]%char.
Definition word_or_hyphen : Re.atom :=
  Re.OneOf [("a", "z"); ("A", "Z"); ("0", "9"); ("_", "_"); ("-", "-")]%char.

Definition valid_pattern : Re.pattern :=
  (Re.lits "trips_"
     ++ [Re.Item digit Re.One false; Re.Item digit Re.One false]
     ++ Re.lits "_"
     ++ [Re.Item digit Re.One false; Re.Item digit Re.One false]
     ++ Re.lits "_"
     ++ [Re.Item word_or_hyphen Re.Plus false]
     ++ Re.lits ".aspx")%list.

(** [select_valid_urls], as a function of the response to the request
    for the index page (its status code and text). *)
Definition select_valid_urls (status_code : Z) (text : string)
  : result (list string) :=
  let url := EMT ++ GENERAL in
  if negb (status_code =? 200) then
    Raise (ConnectionError ("Could not access " ++ url
                              ++ ", status code: " ++ str_int status_code))
  else
    let all_links := get_links text in
    Ok (set_of String.eqb
          (map (fun link => EMT ++ link)
             (filter (Re.search valid_pattern) all_links))).

Definition get_url (valid_urls : list string) (month year : Z) : result string :=
  if negb ((1 <=? month) && (month <=? 12)) then
    Raise (ValueError "Invalid month. Must be between 1 and 12.")
  else if negb ((21 <=? year) && (year <=? 23)) then
    Raise (ValueError "Invalid year. Must be between 21 and 23.")
  else
    let pattern := file_pattern month year in
    match first_containing pattern valid_urls with
    | Some url => Ok url
    | None =>
        Raise (ValueError ("No valid link found for "
                             ++ fmt_02d month ++ "/" ++ fmt_02d year))
    end.

(** *** The reading of [extractLinks] in the specification *)

Definition is_quote (c : ascii) : bool :=
  Ascii.eqb c "'" || Ascii.eqb c dquote.

(** The longest prefix of [s] without a character of [stop]. *)
Fixpoint value_prefix (stop : ascii -> bool) (s : string) : string :=
  match s with
  | EmptyString => EmptyString
  | String c s' =>
      if stop c then EmptyString else String c (value_prefix stop s')
  end.

Definition after_quote (s : string) : nat * string :=
  match s with
  | String c s' => if is_quote c then (1%nat, s') else (0%nat, s)
  | EmptyString => (0%nat, s)
  end.

(** An [href] attribute at the start of [s]: the text [href=], one
    optional quote, and a non-empty value that ends before the first
    character of [stop] (or at the end of the text). *)
Definition href_at (stop : ascii -> bool) (s : string) : option Re.mres :=
  if prefix "href=" s then
    let (q, s') := after_quote (drop 5 s) in
    match value_prefix stop s' with
    | EmptyString => None
    | v => Some (v, (5 + q + String.length v)%nat)
    end
  else None.

Definition href_values (stop : ascii -> bool) (html : string) : list string :=
  set_of String.eqb (Re.scan (href_at stop) 0%nat html).

(** The characters at which the pattern of [get_links] ends a value. *)
Definition stops_of_code (c : ascii) : bool :=
  is_quote c || Ascii.eqb c " " || Ascii.eqb c ">".

(** White space: space, tab, line feed, vertical tab, form feed and
    carriage return. *)
Definition is_whitespace (c : ascii) : bool :=
  Ascii.eqb c " " || Ascii.eqb c "009" || Ascii.eqb c "010"
  || Ascii.eqb c "011" || Ascii.eqb c "012" || Ascii.eqb c "013".

(** The characters at which the specification ends a value: white
    space, a quote, or [>]. *)
Definition stops_of_spec (c : ascii) : bool :=
  is_quote c || is_whitespace c || Ascii.eqb c ">".

(** [extractLinks] as the specification words it. *)
Definition spec_extract_links (html : string) : list string :=
  href_values stops_of_spec html.

End UrlEMT.

(** ** IEEE-754 binary64, the Python [float] *)

Module F64.

Definition prec : Z := 53.
Definition emax : Z := 1024.

Definition float : Type := spec_float.

Definition add : float -> float -> float := SFadd prec emax.
Definition div : float -> float -> float := SFdiv prec emax.

Definition zero : float := S754_zero false.

(** [float(z)] for an integer. *)
Definition of_Z (z : Z) : float := binary_normalize prec emax z 0 false.

(** The decimal text [n / 10^k], read as [read_csv] and Python read a
    short literal: the correctly rounded quotient of two exact
    integers, so [decimal 780 100] is [7.80]. *)
Definition decimal (n scale : Z) : float := div (of_Z n) (of_Z scale).

Definition is_nan (f : float) : bool :=
  match f with
  | S754_nan => true
  | _ => false
  end.

(** [int(f)]: truncation toward zero, undefined on NaN and infinities. *)
Definition trunc (f : float) : option Z :=
  match f with
  | S754_zero _ => Some 0
  | S754_finite s m e => Some (cond_Zopp s (Z.shiftl (Zpos m) e))
  | S754_infinity _ => None
  | S754_nan => None
  end.

(** The exact value of a float, for comparisons with [==]. *)
Inductive exact : Type :=
| Fin (q : Q)
| Inf (neg : bool)
| NaN.

Definition to_exact (f : float) : exact :=
  match f with
  | S754_zero _ => Fin 0%Q
  | S754_finite s m (Zneg k) => Fin (Qmake (cond_Zopp s (Zpos m)) (Pos.pow 2 k))
  | S754_finite s m e => Fin (Qmake (cond_Zopp s (Z.shiftl (Zpos m) e)) 1)
  | S754_infinity s => Inf s
  | S754_nan => NaN
  end.

Definition exact_eqb (a b : exact) : bool :=
  match a, b with
  | Fin p, Fin q => Qeq_bool p q
  | Inf s, Inf s' => Bool.eqb s s'
  | _, _ => false
  end.

(** The same float, bit for bit. *)
Definition identical (a b : float) : bool :=
  match a, b with
  | S754_zero s, S754_zero s' => Bool.eqb s s'
  | S754_infinity s, S754_infinity s' => Bool.eqb s s'
  | S754_nan, S754_nan => true
  | S754_finite s m e, S754_finite s' m' e' =>
      Bool.eqb s s' && Pos.eqb m m' && Z.eqb e e'
  | _, _ => false
  end.



End F64.

(** ** [bicimad/bicimad.py] *)

Module BiciMad.

(** *** Cell values *)

(** The numbers a cell can hold: instances of [int] or [float] ([bool]
    is a subclass of [int]). *)
Inductive number : Type :=
| NFloat (f : F64.float)
| NInt (z : Z)
| NBool (b : bool).

(** A cell of an identifier or text column: a number or a [str].  The
    missing value is the float NaN. *)
Inductive value : Type :=
| Num (n : number)
| Str (s : string).

Definition null : value := Num (NFloat S754_nan).

(** [pd.notna(x)] *)
Definition notna (x : value) : bool :=
  match x with
  | Num (NFloat f) => negb (F64.is_nan f)
  | _ => true
  end.

(** [isinstance(x, (int, float))] *)
Definition is_number (x : value) : bool :=
  match x with
  | Num _ => true
  | Str _ => false
  end.

(** [int(x)] for a number. *)
Definition py_int (n : number) : result Z :=
  match n with
  | NFloat f =>
      match F64.trunc f with
      | Some z => Ok z
      | None =>
          if F64.is_nan f
          then Raise (ValueError "cannot convert float NaN to integer")
          else Raise (OverflowError "cannot convert float infinity to integer")
      end
  | NInt z => Ok z
  | NBool b => Ok (Z.b2z b)
  end.

(** The exact value of a number and the [==] of two cells. *)
Definition num_exact (n : number) : F64.exact :=
  match n with
  | NFloat f => F64.to_exact f
  | NInt z => F64.Fin (inject_Z z)
  | NBool b => F64.Fin (inject_Z (Z.b2z b))
  end.

Definition py_eqb (x y : value) : bool :=
  match x, y with
  | Num a, Num b => F64.exact_eqb (num_exact a) (num_exact b)
  | Str s, Str s' => String.eqb s s'
  | _, _ => false
  end.

(** [[a-zA-Z]] *)
Definition is_alpha (c : ascii) : bool :=
  let n := nat_of_ascii c in
  ((65 <=? n)%nat && (n <=? 90)%nat) || ((97 <=? n)%nat && (n <=? 122)%nat).

(** [re.sub(r'[a-zA-Z]', '', s)] *)
Fixpoint strip_alpha (s : string) : string :=
  match s with
  | EmptyString => EmptyString
  | String c s' =>
      if is_alpha c then strip_alpha s' else String c (strip_alpha s')
  end.

(** The function mapped over the identifier columns by [clean]:
    [str(int(x)) if pd.notna(x) and isinstance(x, (int, float))
     else re.sub(r'[a-zA-Z]', '', str(x)) if pd.notna(x) else x].
    A value that is not a number is a [str], whose [str(x)] is itself. *)
Definition normalize (x : value) : result value :=
  if notna x && is_number x then
    match x with
    | Num n => z <- py_int n ;; Ok (Str (str_int z))
    | Str _ => Ok x
    end
  else if notna x then
    match x with
    | Str s => Ok (Str (strip_alpha s))
    | Num _ => Ok x
    end
  else Ok x.

(** *** Rows and tables *)

Record timestamp : Type := Timestamp {
  ts_year : Z; ts_month : Z; ts_day : Z;
  ts_hour : Z; ts_minute : Z; ts_second : Z
}.

(** One row of the frame built by [get_data]: the index [unlock_date]
    and the fourteen other columns of [__COLUMNS].  The two date
    columns are parsed timestamps, [None] being [NaT]; [trip_minutes]
    is a float64 column whose missing value is NaN. *)
Record row : Type := Row {
  unlock_date : option timestamp;
  idBike : value;
  fleet : value;
  trip_minutes : F64.float;
  geolocation_unlock : value;
  address_unlock : value;
  locktype : value;
  unlocktype : value;
  geolocation_lock : value;
  address_lock : value;
  lock_date : option timestamp;
  station_unlock : value;
  unlock_station_name : value;
  station_lock : value;
  lock_station_name : value
}.

Definition table : Type := list row.

Definition isnull (x : value) : bool := negb (notna x).

Definition isnat (d : option timestamp) : bool :=
  match d with
  | None => true
  | Some _ => false
  end.

(** [isnull().all(axis=1)] on one row: every column is missing.  The
    index is not a column. *)
Definition all_null (r : row) : bool :=
  isnull (idBike r) && isnull (fleet r) && F64.is_nan (trip_minutes r)
  && isnull (geolocation_unlock r) && isnull (address_unlock r)
  && isnull (locktype r) && isnull (unlocktype r)
  && isnull (geolocation_lock r) && isnull (address_lock r)
  && isnat (lock_date r) && isnull (station_unlock r)
  && isnull (unlock_station_name r) && isnull (station_lock r)
  && isnull (lock_station_name r).

(** [dropna(how='all')] *)
Definition dropna_all (t : table) : table :=
  filter (fun r => negb (all_null r)) t.

(** The columns rewritten by [clean]. *)
Inductive id_column : Type :=
| Cfleet
| CidBike
| Cstation_lock
| Cstation_unlock.

Definition get_col (c : id_column) (r : row) : value :=
  match c with
  | Cfleet => fleet r
  | CidBike => idBike r
  | Cstation_lock => station_lock r
  | Cstation_unlock => station_unlock r
  end.

Definition set_col (c : id_column) (v : value) (r : row) : row :=
  match c with
  | Cfleet =>
      Row (unlock_date r) (idBike r) v (trip_minutes r)
        (geolocation_unlock r) (address_unlock r) (locktype r)
        (unlocktype r) (geolocation_lock r) (address_lock r) (lock_date r)
        (station_unlock r) (unlock_station_name r) (station_lock r)
        (lock_station_name r)
  | CidBike =>
      Row (unlock_date r) v (fleet r) (trip_minutes r)
        (geolocation_unlock r) (address_unlock r) (locktype r)
        (unlocktype r) (geolocation_lock r) (address_lock r) (lock_date r)
        (station_unlock r) (unlock_station_name r) (station_lock r)
        (lock_station_name r)
  | Cstation_lock =>
      Row (unlock_date r) (idBike r) (fleet r) (trip_minutes r)
        (geolocation_unlock r) (address_unlock r) (locktype r)
        (unlocktype r) (geolocation_lock r) (address_lock r) (lock_date r)
        (station_unlock r) (unlock_station_name r) v
        (lock_station_name r)
  | Cstation_unlock =>
      Row (unlock_date r) (idBike r) (fleet r) (trip_minutes r)
        (geolocation_unlock r) (address_unlock r) (locktype r)
        (unlocktype r) (geolocation_lock r) (address_lock r) (lock_date r)
        v (unlock_station_name r) (station_lock r)
        (lock_station_name r)
  end.

(** [Series.map(f)]: [f] on each element in order; the first exception
    ends the call. *)
Fixpoint series_map (f : value -> result value) (xs : list value)
  : result (list value) :=
  match xs with
  | [] => Ok []
  | x :: xs' =>
      y <- f x ;; ys <- series_map f xs' ;; Ok (y :: ys)
  end.

(** [df[col] = values]: the column is replaced position by position. *)
Fixpoint assign_col (c : id_column) (vs : list value) (t : table) : table :=
  match t, vs with
  | r :: t', v :: vs' => set_col c v r :: assign_col c vs' t'
  | _, _ => t
  end.

(** One turn of the loop of [clean]:
    [self.__data[col] = self.__data[col].map(...)]. *)
Definition clean_column (c : id_column) (t : table) : result table :=
  vs <- series_map normalize (map (get_col c) t) ;;
  Ok (assign_col c vs t).

(** The loop over the columns.  The frame is mutated in place: when a
    turn raises, the columns already assigned stay assigned. *)
Fixpoint clean_columns (cs : list id_column) (t : table)
  : table * result unit :=
  match cs with
  | [] => (t, Ok tt)
  | c :: cs' =>
      match clean_column c t with
      | Ok t' => clean_columns cs' t'
      | Raise e => (t, Raise e)
      end
  end.

(** [clean]: the frame after the call and the outcome of the call. *)
Definition clean (t : table) : table * result unit :=
  clean_columns [Cfleet; CidBike; Cstation_lock; Cstation_unlock]
    (dropna_all t).

(** *** Statistics *)

(** [len(self.__data)] *)
Definition total_uses (t : table) : Z := Z.of_nat (List.length t).

(** [Series.sum()] of a float64 column (skipna): the missing values are
    replaced by zero and the elements added.  They are added from left
    to right here, which is the order numpy follows on a short column;
    on a long column numpy adds by blocks, which changes which roundings
    happen and not what is added. *)
Definition nansum (xs : list F64.float) : F64.float :=
  fold_left F64.add
    (map (fun x => if F64.is_nan x then F64.zero else x) xs) F64.zero.

(** [self.__data['trip_minutes'].sum() / 60] *)
Definition total_time (t : table) : F64.float :=
  F64.div (nansum (map trip_minutes t)) (F64.of_Z 60).

Section GroupBy.
Context {K : Type} (eqb : K -> K -> bool).

(** Count one more row for key [k]. *)
Fixpoint bump (k : K) (counts : list (K * nat)) : list (K * nat) :=
  match counts with
  | [] => [(k, 1%nat)]
  | (k', n) :: rest =>
      if eqb k' k then (k', S n) :: rest
      else (k', n) :: bump k rest
  end.

(** [groupby(...).size()] over the keys of the rows that have one:
    the observed keys with their row counts. *)
Definition group_sizes (keys : list K) : list (K * nat) :=
  fold_left (fun counts k => bump k counts) keys [].

(** [Series.max()] of the counts; [None] is the NaN of an empty
    series. *)
Definition max_count (counts : list (K * nat)) : option nat :=
  match counts with
  | [] => None
  | _ => Some (fold_right Nat.max 0%nat (map snd counts))
  end.

(** [counts[counts == m]] *)
Definition with_count (m : option nat) (counts : list (K * nat))
  : list (K * nat) :=
  match m with
  | Some n => filter (fun kc => Nat.eqb (snd kc) n) counts
  | None => []
  end.

(** The number of keys of the list equal to [k]. *)
Definition count_key (k : K) (keys : list K) : nat :=
  List.length (filter (eqb k) keys).

(** The rows counted in [counts] under a key equal to [k]. *)
Fixpoint counted (k : K) (counts : list (K * nat)) : nat :=
  match counts with
  | [] => 0%nat
  | (k', n) :: rest =>
      ((if eqb k' k then n else 0) + counted k rest)%nat
  end.

(** No two entries of [counts] have equal keys. *)
Fixpoint distinct_keys (counts : list (K * nat)) : Prop :=
  match counts with
  | [] => True
  | (k, _) :: rest =>
      (forall e, In e rest -> eqb k (fst e) = false) /\ distinct_keys rest
  end.

End GroupBy.

(** The keys of [groupby(["station_unlock", "address_unlock"])]: a row
    with a missing key belongs to no group. *)
Definition pair_key (r : row) : option (value * value) :=
  if notna (station_unlock r) && notna (address_unlock r)
  then Some (station_unlock r, address_unlock r)
  else None.

Definition pair_eqb (k k' : value * value) : bool :=
  py_eqb (fst k) (fst k') && py_eqb (snd k) (snd k').

(** A pair of values that can be a key: neither is missing. *)
Definition valid_pair (k : value * value) : Prop :=
  notna (fst k) = true /\ notna (snd k) = true.

(** The keys of [groupby("station_unlock")]. *)
Definition station_key (r : row) : option value :=
  if notna (station_unlock r) then Some (station_unlock r) else None.

Fixpoint keys_of {K : Type} (key : row -> option K) (t : table) : list K :=
  match t with
  | [] => []
  | r :: t' =>
      match key r with
      | Some k => k :: keys_of key t'
      | None => keys_of key t'
      end
  end.

(** The number of rows of [t] in the group of key [k]. *)
Definition rows_in_group {K : Type} (key : row -> option K)
  (eqb : K -> K -> bool) (k : K) (t : table) : nat :=
  List.length
    (filter (fun r => match key r with
                      | Some k' => eqb k k'
                      | None => false
                      end) t).

Definition station_count (t : table) (s : value) : nat :=
  rows_in_group station_key py_eqb s t.

Definition pair_count (t : table) (k : value * value) : nat :=
  rows_in_group pair_key pair_eqb k t.

Definition most_popular_stations (t : table) : list value :=
  let counts := group_sizes pair_eqb (keys_of pair_key t) in
  let max_uses := max_count counts in
  let most_popular := map (fun kc => snd (fst kc)) (with_count max_uses counts) in
  set_of py_eqb most_popular.

Definition usage_from_most_popular_station (t : table) : result Z :=
  let station_counts := group_sizes py_eqb (keys_of station_key t) in
  let max_usage := max_count station_counts in
  match max_usage with
  | Some n => Ok (Z.of_nat n)
  | None => Raise (ValueError "cannot convert float NaN to integer")
  end.

(** *** The wording of [clean] in the specification *)

(** [z] is the integer truncation of the exact value [q]: the integer
    next to [q] in the direction of zero. *)
Definition truncation_of (q : Q) (z : Z) : Prop :=
  ((0 <= q)%Q -> (inject_Z z <= q)%Q /\ (q < inject_Z (z + 1))%Q)
  /\ ((q <= 0)%Q -> (inject_Z (z - 1) < q)%Q /\ (q <= inject_Z z)%Q).

(** The new value of a cell of an identifier column: a missing value
    stays, a number becomes the text of its integer truncation, a text
    loses its letters. *)
Inductive normalized : value -> value -> Prop :=
| normalized_null (x : value) :
    notna x = false -> normalized x x
| normalized_number (n : number) (q : Q) (z : Z) :
    num_exact n = F64.Fin q -> truncation_of q z ->
    normalized (Num n) (Str (str_int z))
| normalized_text (s : string) :
    normalized (Str s) (Str (strip_alpha s)).

(** A row and the row [clean] makes of it: the four identifier columns
    are normalized, the index and the other columns are the same. *)
Definition cleaned_row (r r' : row) : Prop :=
  normalized (fleet r) (fleet r')
  /\ normalized (idBike r) (idBike r')
  /\ normalized (station_lock r) (station_lock r')
  /\ normalized (station_unlock r) (station_unlock r')
  /\ unlock_date r' = unlock_date r
  /\ trip_minutes r' = trip_minutes r
  /\ geolocation_unlock r' = geolocation_unlock r
  /\ address_unlock r' = address_unlock r
  /\ locktype r' = locktype r
  /\ unlocktype r' = unlocktype r
  /\ geolocation_lock r' = geolocation_lock r
  /\ address_lock r' = address_lock r
  /\ lock_date r' = lock_date r
  /\ unlock_station_name r' = unlock_station_name r
  /\ lock_station_name r' = lock_station_name r.

(** An infinite float, the only number [int] cannot convert besides
    NaN. *)
Definition is_infinite (x : value) : bool :=
  match x with
  | Num (NFloat (S754_infinity _)) => true
  | _ => false
  end.

(** No identifier column of the row holds an infinite float. *)
Definition finite_ids (r : row) : bool :=
  negb (is_infinite (fleet r)) && negb (is_infinite (idBike r))
  && negb (is_infinite (station_lock r))
  && negb (is_infinite (station_unlock r)).

(** *** The wording of [total_time] in the specification *)


(** *** Notions used in the proofs about [clean] *)

(** No row of the table holds an infinite float in column [c]. *)
Definition column_finite (t : table) (c : id_column) : bool :=
  forallb (fun r => negb (is_infinite (get_col c r))) t.

(** The index and the columns that [clean] does not touch agree. *)
Definition same_other_columns (r r' : row) : Prop :=
  unlock_date r' = unlock_date r
  /\ trip_minutes r' = trip_minutes r
  /\ geolocation_unlock r' = geolocation_unlock r
  /\ address_unlock r' = address_unlock r
  /\ locktype r' = locktype r
  /\ unlocktype r' = unlocktype r
  /\ geolocation_lock r' = geolocation_lock r
  /\ address_lock r' = address_lock r
  /\ lock_date r' = lock_date r
  /\ unlock_station_name r' = unlock_station_name r
  /\ lock_station_name r' = lock_station_name r.

(** The row [r'] is [r] after the turns of the loop for the columns
    [cs]. *)
Definition columns_cleaned (cs : list id_column) (r r' : row) : Prop :=
  same_other_columns r r'
  /\ forall c,
      (In c cs -> normalize (get_col c r) = Ok (get_col c r'))
      /\ (~ In c cs -> get_col c r' = get_col c r).

Definition overflow : exn :=
  OverflowError "cannot convert float infinity to integer".

(** One successful turn of the loop, row by row. *)
Definition column_step (c : id_column) (r r' : row) : Prop :=
  exists v, normalize (get_col c r) = Ok v /\ r' = set_col c v r.

(** A column made of values that [normalize] leaves alone. *)
Definition column_done (c : id_column) (t : table) : Prop :=
  Forall (fun r => normalize (get_col c r) = Ok (get_col c r)) t.

End BiciMad.

(** ** The table of [tests/test_bicimad.py] *)

Module Fixture.
Import BiciMad.

Definition num (z : Z) : value := Num (NFloat (F64.of_Z z)).
Definition at_ (h m s : Z) : option timestamp :=
  Some (Timestamp 2022 5 1 h m s).
Definition point (lon lat : string) : value :=
  Str ("{'type': 'Point', 'coordinates': [" ++ lon ++ ", " ++ lat ++ "]}").

(** The five data lines of [FAKE_CSV] as [read_csv] parses them.  A
    column whose text is numeric on every line is a float64 column
    ([idBike], [fleet], [trip_minutes], [station_lock]); [station_unlock]
    holds [111a] and [112b], so it is an object column and each of its
    cells is the text of the field; the line of semicolons is a row of
    missing values. *)
Definition row1 : row :=
  Row (at_ 0 25 29) (num 6623) (num 1) (F64.decimal 780 100)
    (point "-3.6877227" "40.4251002") (Str "'Calle Serrano nº 34'")
    (Str "STATION") (Str "STATION")
    (point "-3.7020842" "40.4239757") (Str "'Plaza de San Ildefonso'")
    (at_ 0 33 17) (Str "111a") (Str "106a - Colón A") (num 59)
    (Str "55 - Plaza de San Ildefonso").

Definition row2 : row :=
  Row (at_ 0 25 33) (num 6031) (num 1) (F64.decimal 2028 100)
    (point "-3.6877227" "40.4251002") (Str "'Calle Serrano nº 32'")
    (Str "STATION") (Str "STATION")
    (point "-3.7032777" "40.4535") (Str "'Calle Navarra nº 1'")
    (at_ 0 45 50) (Str "112") (Str "106a - Colón A") (num 213)
    (Str "205 - Estrecho").

Definition row3 : row :=
  Row (at_ 2 53 26) (num 6456) (num 1) (F64.decimal 678 100)
    (point "-3.6877227" "40.4251002") (Str "'Calle Serrano nº 34'")
    (Str "STATION") (Str "STATION")
    (point "-3.70239" "40.42059") (Str "'Calle Desengaño nº 1'")
    (at_ 3 0 13) (Str "112b") (Str "106a - Colón A") (num 219)
    (Str "211 - Desengaño").

Definition row4 : row :=
  Row (at_ 6 36 21) (num 876) (num 1) (F64.decimal 163 100)
    (point "-3.6877227" "40.4251002") (Str "'Calle Serrano nº 33'")
    (Str "STATION") (Str "STATION")
    (point "-3.6877227" "40.4251002") (Str "'Calle Serrano nº 34'")
    (at_ 6 37 59) (Str "111.0") (Str "106a - Colón A") (num 111)
    (Str "106a - Colón A").

Definition empty_row : row :=
  Row None null null S754_nan null null null null null null None
    null null null null.

Definition fake_csv : table := [row1; row2; row3; row4; empty_row].

(** A table whose only row has an infinite [idBike] (the field [inf] of
    a CSV line), and a table whose only row has nothing but its index. *)
Definition inf_row : row :=
  Row (at_ 0 25 29) (Num (NFloat (S754_infinity false))) (num 1)
    (F64.decimal 780 100)
    (point "-3.6877227" "40.4251002") (Str "'Calle Serrano nº 34'")
    (Str "STATION") (Str "STATION")
    (point "-3.7020842" "40.4239757") (Str "'Plaza de San Ildefonso'")
    (at_ 0 33 17) (Str "111a") (Str "106a - Colón A") (num 59)
    (Str "55 - Plaza de San Ildefonso").

(** The durations of the four trips, and the orders in which they can
    be added. *)
Definition durations : list F64.float :=
  [F64.decimal 780 100; F64.decimal 2028 100;
   F64.decimal 678 100; F64.decimal 163 100].

Fixpoint insert_everywhere {A : Type} (x : A) (l : list A) : list (list A) :=
  match l with
  | [] => [[x]]
  | y :: l' => (x :: l) :: map (cons y) (insert_everywhere x l')
  end.

Fixpoint permutations {A : Type} (l : list A) : list (list A) :=
  match l with
  | [] => [[]]
  | x :: l' => flat_map (insert_everywhere x) (permutations l')
  end.

(** Two ways of adding four floats: one after the other, and in two
    halves. *)
Definition add_in_turn (l : list F64.float) : F64.float :=
  fold_left F64.add l F64.zero.

Definition add_in_halves (l : list F64.float) : F64.float :=
  match l with
  | [a; b; c; d] => F64.add (F64.add a b) (F64.add c d)
  | _ => add_in_turn l
  end.

(** Three rows with three different stations and addresses. *)
Definition three_groups : table := [row1; row2; row4].

Definition index_only_row : row :=
  Row (at_ 0 25 29) null null S754_nan null null null null null null None
    null null null null.

End Fixture.

(** ** Sample inputs *)

Module Samples.
Import UrlEMT.

Definition dq : string := String dquote "".

(** A link of the index page that carries a query after the file name,
    and the page that holds it. *)
Definition march_path : string :=
  GENERAL ++ "/trips_21_03_March-csv.aspx?download=1".
Definition march_link : string := EMT ++ march_path.
Definition march_page : string :=
  "<a href=" ++ dq ++ march_path ++ dq ++ ">March</a>".

(** The page of [tests/test_urlemt.py], without its line breaks. *)
Definition test_page : string :=
  "<html><body><a href=" ++ dq ++ "file1.csv" ++ dq ++ ">CSV</a>"
    ++ "<a href=" ++ dq ++ "trips_21_03_March-csv.aspx" ++ dq
    ++ ">March Trips</a><a href=" ++ dq ++ "something_else.pdf" ++ dq
    ++ ">PDF</a></body></html>".

(** The three ways of quoting an attribute value: none, single quotes,
    double quotes. *)
Definition quotings : list string := [""; "'"; dq].

(** An unquoted attribute that ends at a tab. *)
Definition tab_page : string :=
  "<a href=a.html" ++ String "009" "class=x>A</a>".

End Samples.

(** ** The requests of [UrlEMT] and [BiciMad.get_data] *)

Module Download.
Import UrlEMT BiciMad.

(** One member of a zip archive: its name and its text (the bytes of the
    member decoded as UTF-8). *)
Definition member : Type := (string * string)%type.

(** What [requests.get] returns: the status code, the body as text and
    the body as a zip archive, given by its members in the order of the
    archive.  A body that is no archive is not modelled. *)
Record response : Type := Response {
  status_code : Z;
  text : string;
  content : list member
}.

(** The web, as seen during one call: the response to a request for each
    address. *)
Definition web : Type := string -> response.

(** The exceptions of this part of the code: those of [Py.exn], and the
    [IndexError] of an index into an empty list. *)
Inductive raised : Type :=
| Exn (e : exn)
| IndexError (msg : string).

Inductive outcome (A : Type) : Type :=
| Returns (a : A)
| Raises (e : raised).
Arguments Returns {A} a.
Arguments Raises {A} e.

Definition of_result {A : Type} (r : result A) : outcome A :=
  match r with
  | Ok a => Returns a
  | Raise e => Raises (Exn e)
  end.

Definition and_then {A B : Type} (o : outcome A) (k : A -> outcome B)
  : outcome B :=
  match o with
  | Returns a => k a
  | Raises e => Raises e
  end.

(** [UrlEMT.__init__]: the links kept by the new object, found by a
    request for the index page. *)
Definition init (get : web) : result (list string) :=
  let r := get (EMT ++ GENERAL) in
  select_valid_urls (status_code r) (text r).

(** [zipfile.namelist()] *)
Definition namelist (archive : list member) : list string :=
  map fst archive.

(** [zipfile.open(name)]: the member of that name, the last one when the
    archive has several. *)
Fixpoint open_member (archive : list member) (name : string) : option string :=
  match archive with
  | [] => None
  | (n, body) :: rest =>
      match open_member rest name with
      | Some later => Some later
      | None => if String.eqb n name then Some body else None
      end
  end.

(** [UrlEMT.get_csv] for an object that keeps [valid_urls]; the stream
    returned is given by its text. *)
Definition get_csv (get : web) (valid_urls : list string) (month year : Z)
  : outcome string :=
  and_then (of_result (get_url valid_urls month year)) (fun url =>
  let response := get url in
  if negb (status_code response =? 200) then
    Raises (Exn (ConnectionError
                   ("Failed to download the file, status code: "
                      ++ str_int (status_code response))))
  else
    let zipfile := content response in
    match filter (fun f => endswith f ".csv") (namelist zipfile) with
    | [] => Raises (IndexError "list index out of range")
    | csv_name :: _ =>
        (* the name is one of the archive, so the member is found *)
        match open_member zipfile csv_name with
        | Some stream => Returns stream
        | None => Raises (IndexError "list index out of range")
        end
    end).

Section GetData.
(** [pd.read_csv] with the arguments of [get_data], as a function of the
    text of the stream. *)
Variable read_csv : string -> outcome table.

(** [BiciMad.get_data]: [UrlEMT()] is built first, then [get_csv] is
    called on it and the stream is parsed. *)
Definition get_data (get : web) (month year : Z) : outcome table :=
  and_then (of_result (init get)) (fun valid_urls =>
  and_then (get_csv get valid_urls month year) read_csv).

End GetData.

End Download.

(** ** [BiciMad.resume] *)

Module Report.
Import BiciMad.

(** The series returned by [resume]. *)
Record summary : Type := Summary {
  s_year : Z;
  s_month : Z;
  s_total_uses : Z;
  s_total_time : F64.float;
  s_most_popular_station : list value;
  s_uses_from_most_popular : Z
}.

(** [BiciMad.resume] for an object made for [month] and [year] whose
    frame is [t]. *)
Definition resume (month year : Z) (t : table) : result summary :=
  let uses := total_uses t in
  let time := total_time t in
  let stations := most_popular_stations t in
  n <- usage_from_most_popular_station t ;;
  Ok (Summary year month uses time stations n).

End Report.

(** ** Notions used in the further properties *)

Module Notions.
Import UrlEMT BiciMad.

(** A character of the class of [valid_pattern]: an ASCII letter or
    digit, [_] or [-]. *)
Definition is_word_or_hyphen (c : ascii) : bool :=
  Re.atom_match word_or_hyphen c.

Definition is_digit (c : ascii) : bool := Re.atom_match digit c.

(** A text that starts with a dated file name: [trips_], two digits,
    [_], two digits, [_], a non-empty name of word characters and
    hyphens, and [.aspx]. *)
Definition starts_dated (s : string) : Prop :=
  exists y1 y2 m1 m2 name rest,
    s = "trips_" ++ String y1 (String y2 ("_" ++ String m1 (String m2
          ("_" ++ name ++ ".aspx" ++ rest))))
    /\ is_digit y1 = true /\ is_digit y2 = true
    /\ is_digit m1 = true /\ is_digit m2 = true
    /\ name <> "" /\ all_chars is_word_or_hyphen name = true.

(** The address of the file of a month, as the index page of the site
    lists it (the example of the docstring of [get_url]). *)
Definition month_url (my : Z * Z) : string :=
  EMT ++ GENERAL ++ "/" ++ file_pattern (fst my) (snd my).

(** The months and years that [get_url] accepts. *)
Definition accepted : list (Z * Z) :=
  list_prod [1; 2; 3; 4; 5; 6; 7; 8; 9; 10; 11; 12] [21; 22; 23].

Definition same_month (a b : Z * Z) : bool :=
  (fst a =? fst b) && (snd a =? snd b).

(** The pattern [p] matches at the start of [s]. *)
Definition matches_at (p : Re.pattern) (s : string) : Prop :=
  exists r, Re.match_here p s = Some r.

(** The cell is missing or a text without ASCII letters. *)
Definition is_clean_id (x : value) : bool :=
  match x with
  | Str s => all_chars (fun c => negb (is_alpha c)) s
  | Num _ => negb (notna x)
  end.

(** The number of rows whose columns are all missing. *)
Definition empty_rows (t : table) : nat :=
  List.length (filter all_null t).

End Notions.

(* ================================================================= *)
(** * Part II: properties *)
(* ================================================================= *)

(** ** Strings *)

Section StringFacts.

Lemma prefix_app (p s : string) :
  prefix p s = true <-> exists post, s = p ++ post.
Proof.
  revert s; induction p as [|c p IH]; intros s.
  - split; [intros _; exists s; reflexivity | now destruct s].
  - destruct s as [|d s]; simpl.
    + split; [discriminate | intros [post H]; discriminate].
    + destruct (ascii_dec c d) as [->|Hcd].
      * rewrite IH. split; intros [post H]; exists post.
        -- now rewrite H.
        -- now injection H.
      * split; [discriminate|].
        intros [post H]; injection H as H1 H2; congruence.
Qed.

Lemma contains_app (pat s : string) :
  contains pat s = true <-> exists pre post, s = pre ++ pat ++ post.
Proof.
  split.
  - induction s as [|c s IH]; cbn [contains].
    + destruct (prefix pat "") eqn:E; [|discriminate].
      intros _. apply prefix_app in E as [post E].
      exists "", post. exact E.
    + destruct (prefix pat (String c s)) eqn:E.
      * intros _. apply prefix_app in E as [post E].
        exists "", post. exact E.
      * intros H. destruct (IH H) as (pre & post & ->).
        exists (String c pre), post. reflexivity.
  - intros (pre & post & ->).
    induction pre as [|c pre IH].
    + assert (E : prefix pat (pat ++ post) = true)
        by (apply prefix_app; now exists post).
      change ("" ++ pat ++ post) with (pat ++ post).
      destruct (pat ++ post); cbn [contains]; now rewrite E.
    + change (String c pre ++ pat ++ post)
        with (String c (pre ++ pat ++ post)).
      cbn [contains]. rewrite IH. now destruct (prefix pat _).
Qed.

Lemma endswith_app (s suf : string) :
  endswith s suf = true <-> exists pre, s = pre ++ suf.
Proof.
  split.
  - induction s as [|c s IH]; cbn [endswith].
    + destruct (String.eqb "" suf) eqn:E; [|discriminate].
      intros _. apply String.eqb_eq in E as <-. now exists "".
    + destruct (String.eqb (String c s) suf) eqn:E.
      * intros _. apply String.eqb_eq in E as <-. now exists "".
      * intros H. destruct (IH H) as [pre ->].
        now exists (String c pre).
  - intros [pre ->].
    induction pre as [|c pre IH].
    + change ("" ++ suf) with suf.
      destruct suf; cbn [endswith]; now rewrite String.eqb_refl.
    + change (String c pre ++ suf) with (String c (pre ++ suf)).
      cbn [endswith]. rewrite IH. now destruct (String.eqb _ _).
Qed.

End StringFacts.

(** ** [UrlEMT.get_url] *)

Section GetUrl.
Import UrlEMT.

Lemma first_containing_first (pattern : string) (urls : list string) :
  match first_containing pattern urls with
  | Some url =>
      exists before after,
        urls = (before ++ url :: after)%list
        /\ contains pattern url = true
        /\ forall u, In u before -> contains pattern u = false
  | None => forall u, In u urls -> contains pattern u = false
  end.
Proof.
  induction urls as [|u urls IH]; simpl.
  - intros u [].
  - destruct (contains pattern u) eqn:E.
    + exists [], urls. repeat split; auto. intros ? [].
    + destruct (first_containing pattern urls) as [url|].
      * destruct IH as (before & after & -> & Hc & Hb).
        exists (u :: before), after. repeat split; auto.
        intros v [<-|Hv]; auto.
      * intros v [<-|Hv]; auto.
Qed.

Lemma get_url_in_range (valid_urls : list string) (month year : Z) :
  1 <= month <= 12 -> 21 <= year <= 23 ->
  get_url valid_urls month year =
    match first_containing (file_pattern month year) valid_urls with
    | Some url => Ok url
    | None =>
        Raise (ValueError ("No valid link found for "
                             ++ fmt_02d month ++ "/" ++ fmt_02d year))
    end.
Proof.
  intros Hm Hy. unfold get_url.
  replace ((1 <=? month) && (month <=? 12)) with true
    by (symmetry; apply andb_true_intro; split; apply Z.leb_le; lia).
  replace ((21 <=? year) && (year <=? 23)) with true
    by (symmetry; apply andb_true_intro; split; apply Z.leb_le; lia).
  reflexivity.
Qed.

End GetUrl.

Section GetUrlClaims.
Import UrlEMT Samples.

Lemma fmt_02d_width (z : Z) :
  0 <= z <= 99 -> String.length (fmt_02d z) = 2%nat.
Proof.
  intros H.
  assert (E : exists n, (n < 100)%nat /\ z = Z.of_nat n)
    by (exists (Z.to_nat z); lia).
  destruct E as (n & Hn & ->). clear H.
  do 100 (destruct n as [|n]; [reflexivity|]). lia.
Qed.

(** C6. [get_url] raises [ValueError] for every month outside 1..12
    (message [Invalid month...]) and, the month being in range, for
    every year outside 21..23 (message [Invalid year...]).  The outcome
    is the same for every cached link set: the links are not looked
    at, and the function itself makes no request. *)
Theorem get_url_invalid_argument (valid_urls : list string) (month year : Z) :
  (month < 1 \/ 12 < month) \/ (year < 21 \/ 23 < year) ->
  get_url valid_urls month year =
    Raise (ValueError
             (if (month <? 1) || (12 <? month)
              then "Invalid month. Must be between 1 and 12."
              else "Invalid year. Must be between 21 and 23.")).
Proof.
  intros H. unfold get_url.
  destruct (1 <=? month) eqn:E1; destruct (month <=? 12) eqn:E2;
    destruct (month <? 1) eqn:E3; destruct (12 <? month) eqn:E4;
    try (apply Z.leb_le in E1); try (apply Z.leb_gt in E1);
    try (apply Z.leb_le in E2); try (apply Z.leb_gt in E2);
    try (apply Z.ltb_lt in E3); try (apply Z.ltb_ge in E3);
    try (apply Z.ltb_lt in E4); try (apply Z.ltb_ge in E4);
    try lia; cbn [andb orb negb]; try reflexivity.
  destruct (21 <=? year) eqn:E5; destruct (year <=? 23) eqn:E6;
    try (apply Z.leb_le in E5); try (apply Z.leb_gt in E5);
    try (apply Z.leb_le in E6); try (apply Z.leb_gt in E6);
    try lia; reflexivity.
Qed.

Lemma get_url_invalid_argument_witness :
  get_url [march_link] 13 21
    = Raise (ValueError "Invalid month. Must be between 1 and 12.")
  /\ get_url [march_link] 3 24
    = Raise (ValueError "Invalid year. Must be between 21 and 23.").
Proof.
  split.
  - apply (get_url_invalid_argument [march_link] 13 21). lia.
  - apply (get_url_invalid_argument [march_link] 3 24). lia.
Defined.

(** C5, as amended.  For a month in 1..12 and a year in 21..23 the
    expected file name is [trips_YY_MM_MonthName-csv.aspx] with two
    digits for the year and for the month.  If some cached link
    contains it, [get_url] returns the first cached link that contains
    it, which ends with the file name whenever every cached link that
    contains the name ends with it; if no cached link contains it,
    [get_url] raises [ValueError] with a message that names the month
    and the year. *)
Theorem get_url_returns_containing_link
  (valid_urls : list string) (month year : Z) :
  1 <= month <= 12 -> 21 <= year <= 23 ->
  (file_pattern month year
     = "trips_" ++ fmt_02d year ++ "_" ++ fmt_02d month ++ "_"
         ++ month_name month ++ "-csv.aspx"
   /\ String.length (fmt_02d year) = 2%nat
   /\ String.length (fmt_02d month) = 2%nat)
  /\ ((exists u, In u valid_urls /\ contains (file_pattern month year) u = true) ->
      exists url before after,
        get_url valid_urls month year = Ok url
        /\ valid_urls = (before ++ url :: after)%list
        /\ contains (file_pattern month year) url = true
        /\ (forall u, In u before -> contains (file_pattern month year) u = false)
        /\ ((forall u, In u valid_urls ->
                       contains (file_pattern month year) u = true ->
                       endswith u (file_pattern month year) = true) ->
            endswith url (file_pattern month year) = true))
  /\ ((forall u, In u valid_urls -> contains (file_pattern month year) u = false) ->
      get_url valid_urls month year
        = Raise (ValueError ("No valid link found for "
                               ++ fmt_02d month ++ "/" ++ fmt_02d year))).
Proof.
  intros Hm Hy. split; [|split].
  - split; [reflexivity|].
    split; apply fmt_02d_width; lia.
  - intros (u & Hu & Hc).
    rewrite (get_url_in_range valid_urls month year Hm Hy).
    pose proof (first_containing_first (file_pattern month year) valid_urls) as F.
    destruct (first_containing (file_pattern month year) valid_urls) as [url|].
    + destruct F as (before & after & E & Hurl & Hb).
      exists url, before, after. repeat split; auto.
      intros Hall. apply Hall; auto.
      rewrite E. apply in_or_app. right. now left.
    + rewrite (F u Hu) in Hc. discriminate.
  - intros Hnone.
    rewrite (get_url_in_range valid_urls month year Hm Hy).
    pose proof (first_containing_first (file_pattern month year) valid_urls) as F.
    destruct (first_containing (file_pattern month year) valid_urls) as [url|];
      [|reflexivity].
    destruct F as (before & after & E & Hurl & _).
    rewrite Hnone in Hurl; [discriminate|].
    rewrite E. apply in_or_app. right. now left.
Qed.

Lemma get_url_returns_containing_link_witness :
  (exists url, get_url [march_link] 3 21 = Ok url
               /\ contains (file_pattern 3 21) url = true)
  /\ get_url [march_link] 4 21
     = Raise (ValueError "No valid link found for 04/21").
Proof.
  split.
  - destruct (get_url_returns_containing_link [march_link] 3 21) as (_ & H & _);
      [lia | lia |].
    destruct H as (url & _ & _ & H1 & _ & H2 & _ & _).
    + exists march_link. split; [now left | reflexivity].
    + exists url. split; assumption.
  - destruct (get_url_returns_containing_link [march_link] 4 21) as (_ & _ & H);
      [lia | lia |].
    apply H. intros u [<-|[]]. reflexivity.
Defined.

(** The link [march_link] comes out of [select_valid_urls] for the page
    [march_page]; it contains the file name expected for March 2021 and
    [get_url] returns it, but it does not end with that file name. *)
Lemma get_url_suffix_counterexample :
  select_valid_urls 200 march_page = Ok [march_link]
  /\ contains (file_pattern 3 21) march_link = true
  /\ get_url [march_link] 3 21 = Ok march_link
  /\ endswith march_link (file_pattern 3 21) = false.
Proof. repeat split; vm_compute; reflexivity. Qed.

End GetUrlClaims.

(** ** [UrlEMT.get_links] *)

Section GetLinks.
Import UrlEMT Samples.

Lemma in_range_char (c x : ascii) :
  Re.in_range c (Re.char x) = Ascii.eqb c x.
Proof.
  unfold Re.in_range, Re.char; cbn [fst snd].
  destruct (Ascii.eqb c x) eqn:E.
  - apply Ascii.eqb_eq in E as ->. now rewrite Nat.leb_refl.
  - apply Ascii.eqb_neq in E.
    apply andb_false_iff.
    destruct (nat_of_ascii x <=? nat_of_ascii c)%nat eqn:L1; [right|now left].
    apply Nat.leb_gt. apply Nat.leb_le in L1.
    assert (nat_of_ascii c <> nat_of_ascii x); [|lia].
    intros Hn. apply E.
    rewrite <- (ascii_nat_embedding c), <- (ascii_nat_embedding x).
    now rewrite Hn.
Qed.

Lemma mem_href_stops (c : ascii) :
  Re.mem c href_stops = stops_of_code c.
Proof.
  unfold Re.mem, href_stops, stops_of_code, is_quote.
  cbn [map existsb]. rewrite !in_range_char.
  now rewrite orb_false_r, !orb_assoc.
Qed.

Lemma mem_quotes (c : ascii) :
  Re.mem c (map Re.char ["'"; dquote]%char) = is_quote c.
Proof.
  unfold Re.mem, is_quote. cbn [map existsb]. rewrite !in_range_char.
  now rewrite orb_false_r.
Qed.

(** A run of literals matches exactly when it is a prefix. *)
Lemma match_here_lits (l : string) (p : Re.pattern) (s : string) :
  Re.match_here (Re.lits l ++ p)%list s =
    if prefix l s
    then option_map (fun r => (fst r, (String.length l + snd r)%nat))
           (Re.match_here p (drop (String.length l) s))
    else None.
Proof.
  revert s; induction l as [|c l IH]; intros s.
  - cbn [Re.lits list_ascii_of_string map app String.length drop Nat.add].
    replace (prefix "" s) with true by now destruct s.
    replace (drop 0 s) with s by now destruct s.
    destruct (Re.match_here p s) as [[v n]|]; reflexivity.
  - destruct s as [|d s].
    + reflexivity.
    + change (Re.lits (String c l) ++ p)%list
        with (Re.Item (Re.Lit c) Re.One false :: (Re.lits l ++ p))%list.
      cbn [Re.match_here Re.atom_match prefix String.length drop].
      destruct (ascii_dec c d) as [->|Hcd].
      * rewrite Ascii.eqb_refl, IH.
        destruct (prefix l s); [|reflexivity].
        destruct (Re.match_here p (drop (String.length l) s)) as [[v n]|];
          reflexivity.
      * replace (Ascii.eqb d c) with false; [reflexivity|].
        symmetry. apply Ascii.eqb_neq. congruence.
Qed.

(** The greedy run of the group takes the whole value. *)
Lemma match_here_value (s : string) :
  Re.match_here [Re.Item (Re.NotIn href_stops) Re.Plus true] s =
    match value_prefix stops_of_code s with
    | EmptyString => None
    | v => Some (v, String.length v)
    end.
Proof.
  induction s as [|c s IH].
  - reflexivity.
  - cbn [Re.match_here] in *. rewrite IH.
    cbn [Re.atom_match value_prefix].
    rewrite mem_href_stops.
    destruct (stops_of_code c); cbn [negb]; [reflexivity|].
    destruct (value_prefix stops_of_code s); reflexivity.
Qed.

Lemma value_prefix_stop (stop : ascii -> bool) (c : ascii) (s : string) :
  stop c = true -> value_prefix stop (String c s) = EmptyString.
Proof. intros H. cbn. now rewrite H. Qed.

Lemma is_quote_stop (c : ascii) :
  is_quote c = true -> stops_of_code c = true.
Proof. unfold stops_of_code. now intros ->. Qed.

Lemma match_here_opt (a : Re.atom) (g : bool) (p : Re.pattern)
  (c : ascii) (s : string) :
  Re.match_here (Re.Item a Re.Opt g :: p) (String c s) =
    if Re.atom_match a c then
      match Re.match_here p s with
      | Some r => Some (Re.took g c r)
      | None => Re.match_here p (String c s)
      end
    else Re.match_here p (String c s).
Proof. reflexivity. Qed.

(** At every position the pattern of [get_links] matches what
    [href_at] reads with the stop characters of the code. *)
Lemma match_here_href (s : string) :
  Re.match_here href_pattern s = href_at stops_of_code s.
Proof.
  unfold href_pattern, href_at.
  rewrite match_here_lits.
  destruct (prefix "href=" s); [|reflexivity].
  change (String.length "href=") with 5%nat.
  generalize (drop 5 s). clear s. intros s.
  destruct s as [|c s].
  - reflexivity.
  - rewrite match_here_opt, !match_here_value.
    cbn [Re.atom_match after_quote]. rewrite mem_quotes.
    destruct (is_quote c) eqn:Q.
    + destruct (value_prefix stops_of_code s) eqn:E; [|reflexivity].
      rewrite value_prefix_stop by now apply is_quote_stop.
      reflexivity.
    + destruct (value_prefix stops_of_code (String c s)); reflexivity.
Qed.

Lemma scan_ext (m m' : string -> option Re.mres) :
  (forall s, m s = m' s) ->
  forall s skip, Re.scan m skip s = Re.scan m' skip s.
Proof.
  intros E. induction s as [|c s IH]; intros [|k]; cbn [Re.scan];
    rewrite <- ?E, ?IH; try reflexivity.
  - destruct (m (String c s)) as [[v n]|]; now rewrite ?IH.
Qed.

Lemma get_links_href_values (html : string) :
  get_links html = href_values stops_of_code html.
Proof.
  unfold get_links, href_values, Re.findall.
  f_equal. apply scan_ext. exact match_here_href.
Qed.

Lemma scan_skip (m : string -> option Re.mres) (s1 s2 : string) :
  Re.scan m (String.length s1) (s1 ++ s2) = Re.scan m 0%nat s2.
Proof. induction s1 as [|c s1 IH]; [reflexivity | exact IH]. Qed.

Lemma scan_no_href (stop : ascii -> bool) (s : string) :
  contains "href=" s = false -> Re.scan (href_at stop) 0%nat s = [].
Proof.
  induction s as [|c s IH]; cbn [contains Re.scan]; unfold href_at.
  - reflexivity.
  - destruct (prefix "href=" (String c s)); [discriminate|].
    exact IH.
Qed.

Lemma value_prefix_app (stop : ascii -> bool) (v : string) (c : ascii)
  (rest : string) :
  all_chars (fun x => negb (stop x)) v = true -> stop c = true ->
  value_prefix stop (v ++ String c rest) = v.
Proof.
  intros Hv Hc. induction v as [|d v IH]; cbn in *.
  - now rewrite Hc.
  - apply andb_prop in Hv as [Hd Hv].
    apply negb_true_iff in Hd. rewrite Hd. now rewrite IH.
Qed.

Lemma string_app_assoc (s1 s2 s3 : string) :
  (s1 ++ s2) ++ s3 = s1 ++ s2 ++ s3.
Proof. induction s1 as [|c s1 IH]; cbn; [reflexivity | now rewrite IH]. Qed.

Lemma string_length_app (s1 s2 : string) :
  String.length (s1 ++ s2) = (String.length s1 + String.length s2)%nat.
Proof. induction s1 as [|c s1 IH]; cbn; [reflexivity | now rewrite IH]. Qed.

(** One anchor with a value [v] free of stop characters yields [v],
    however the value is quoted. *)
Lemma get_links_anchor (q v : string) :
  In q quotings -> v <> "" ->
  all_chars (fun c => negb (stops_of_code c)) v = true ->
  get_links ("<a href=" ++ q ++ v ++ q ++ ">") = [v].
Proof.
  intros Hq Hne Hv.
  rewrite get_links_href_values. unfold href_values.
  set (m := href_at stops_of_code).
  assert (Hm : m ("href=" ++ q ++ v ++ q ++ ">")
               = Some (v, (5 + String.length q + String.length v)%nat)).
  { unfold m, href_at.
    replace (prefix "href=" ("href=" ++ q ++ v ++ q ++ ">")) with true
      by (symmetry; apply prefix_app; eexists; reflexivity).
    change (drop 5 ("href=" ++ q ++ v ++ q ++ ">")) with (q ++ v ++ q ++ ">").
    destruct v as [|c v]; [congruence|].
    assert (Hc : stops_of_code c = false).
    { cbn in Hv. apply andb_prop in Hv as [Hc _].
      now apply negb_true_iff in Hc. }
    assert (Hcq : is_quote c = false).
    { unfold stops_of_code in Hc.
      now destruct (is_quote c). }
    destruct Hq as [<-|[<-|[<-|[]]]].
    - change ("" ++ String c v ++ "" ++ ">") with (String c (v ++ ">")).
      cbn [after_quote]. rewrite Hcq.
      change (String c (v ++ ">")) with (String c v ++ ">").
      now rewrite value_prefix_app.
    - change ("'" ++ String c v ++ "'" ++ ">")
        with (String "'" (String c v ++ String "'" ">")).
      cbn [after_quote].
      change (is_quote "'") with true. cbv iota.
      now rewrite value_prefix_app.
    - change (dq ++ String c v ++ dq ++ ">")
        with (String dquote (String c v ++ String dquote ">")).
      cbn [after_quote].
      change (is_quote dquote) with true. cbv iota.
      now rewrite value_prefix_app. }
  change ("<a href=" ++ q ++ v ++ q ++ ">")
    with (String "<" (String "a" (String " " ("href=" ++ q ++ v ++ q ++ ">")))).
  assert (Hskip : forall c s, c <> "h"%char -> Re.scan m 0%nat (String c s)
                                               = Re.scan m 0%nat s).
  { intros c s Hc. cbn [Re.scan]. unfold m at 1, href_at.
    cbn [prefix]. destruct (ascii_dec "h" c); [congruence|reflexivity]. }
  rewrite !Hskip by discriminate.
  change ("href=" ++ q ++ v ++ q ++ ">")
    with (String "h" ("ref=" ++ q ++ v ++ q ++ ">")) in *.
  cbn [Re.scan]. rewrite Hm. cbn [Nat.pred Nat.add].
  replace ("ref=" ++ q ++ v ++ q ++ ">")
    with (("ref=" ++ q ++ v) ++ q ++ ">").
  2:{ now rewrite !string_app_assoc. }
  replace (S (S (S (S (String.length q + String.length v)))))
    with (String.length ("ref=" ++ q ++ v))
    by (cbn; now rewrite string_length_app).
  rewrite scan_skip.
  destruct Hq as [<-|[<-|[<-|[]]]]; reflexivity.
Qed.

(** C8, as amended.  For every text, [get_links] returns the set of
    the values read by [href_at] with the stop characters of the code:
    after [href=] and one optional single or double quote, the
    non-empty run of characters up to the first quote, space or [>]
    (a tab or a line break does not end a value).  The empty text and a
    text without [href=] give the empty set, and an anchor gives its
    value whether the value is unquoted, single-quoted or
    double-quoted. *)
Theorem get_links_href_attributes :
  (forall html, get_links html = href_values stops_of_code html)
  /\ get_links "" = []
  /\ (forall html, contains "href=" html = false -> get_links html = [])
  /\ (forall q v,
        In q quotings -> v <> "" ->
        all_chars (fun c => negb (stops_of_code c)) v = true ->
        get_links ("<a href=" ++ q ++ v ++ q ++ ">") = [v]).
Proof.
  split; [exact get_links_href_values|].
  split; [reflexivity|].
  split; [|exact get_links_anchor].
  intros html H. rewrite get_links_href_values. unfold href_values.
  now rewrite scan_no_href.
Qed.

Lemma get_links_href_attributes_witness :
  get_links "no links here" = []
  /\ get_links ("<a href=" ++ dq ++ "page.html" ++ dq ++ ">") = ["page.html"].
Proof.
  destruct get_links_href_attributes as (_ & _ & H3 & H4).
  split.
  - apply H3. reflexivity.
  - apply (H4 dq "page.html").
    + right; right; left; reflexivity.
    + discriminate.
    + reflexivity.
Defined.

(** On [tab_page] the attribute value is [a.html], and that is what
    the reading of the specification returns; [get_links] returns the
    text up to the [>], the tab included. *)
Lemma get_links_whitespace_counterexample :
  spec_extract_links tab_page = ["a.html"]
  /\ get_links tab_page = ["a.html" ++ String "009" "class=x"]
  /\ existsb (String.eqb "a.html") (get_links tab_page) = false.
Proof. repeat split; vm_compute; reflexivity. Qed.

End GetLinks.

(** ** [BiciMad.clean] *)

Section Normalize.
Import BiciMad.

Lemma strip_alpha_fixed (s : string) :
  all_chars (fun c => negb (is_alpha c)) s = true -> strip_alpha s = s.
Proof.
  induction s as [|c s IH]; cbn; [reflexivity|].
  intros H. apply andb_prop in H as [Hc Hs].
  apply negb_true_iff in Hc. rewrite Hc. now rewrite IH.
Qed.

Lemma strip_alpha_no_alpha (s : string) :
  all_chars (fun c => negb (is_alpha c)) (strip_alpha s) = true.
Proof.
  induction s as [|c s IH]; cbn; [reflexivity|].
  destruct (is_alpha c) eqn:E; [exact IH|].
  cbn. now rewrite E, IH.
Qed.

Lemma strip_alpha_idempotent (s : string) :
  strip_alpha (strip_alpha s) = strip_alpha s.
Proof. apply strip_alpha_fixed, strip_alpha_no_alpha. Qed.

Lemma string_of_uint_no_alpha (d : Decimal.uint) :
  all_chars (fun c => negb (is_alpha c)) (NilEmpty.string_of_uint d) = true.
Proof. induction d; cbn [NilEmpty.string_of_uint all_chars]; auto. Qed.

Lemma str_int_no_alpha (z : Z) :
  all_chars (fun c => negb (is_alpha c)) (str_int z) = true.
Proof.
  unfold str_int.
  assert (U : forall d, all_chars (fun c => negb (is_alpha c))
                          (NilZero.string_of_uint d) = true).
  { intros d. unfold NilZero.string_of_uint.
    destruct d; try reflexivity; apply string_of_uint_no_alpha. }
  destruct (Z.to_int z); cbn [NilZero.string_of_int all_chars];
    rewrite ?U; reflexivity.
Qed.

(** [normalize] keeps missing values missing and values present. *)
Lemma normalize_notna (x y : value) :
  normalize x = Ok y -> notna y = notna x.
Proof.
  destruct x as [[f|z|b]|s]; unfold normalize; cbn.
  - destruct (F64.is_nan f) eqn:N; cbn.
    + intros [= <-]. cbn. now rewrite N.
    + destruct (F64.trunc f); cbn; [now intros [= <-]|discriminate].
  - now intros [= <-].
  - now intros [= <-].
  - now intros [= <-].
Qed.

(** What [normalize] returns is left as it is by [normalize]. *)
Lemma normalize_idempotent (x y : value) :
  normalize x = Ok y -> normalize y = Ok y.
Proof.
  assert (S : forall z, normalize (Str (str_int z)) = Ok (Str (str_int z))).
  { intros z. unfold normalize; cbn.
    now rewrite strip_alpha_fixed by apply str_int_no_alpha. }
  destruct x as [[f|z|b]|s]; unfold normalize at 1; cbn.
  - destruct (F64.is_nan f) eqn:N; cbn.
    + intros [= <-]. unfold normalize; cbn. now rewrite N.
    + destruct (F64.trunc f); cbn; [intros [= <-]; apply S|discriminate].
  - intros [= <-]. apply S.
  - intros [= <-]. apply S.
  - intros [= <-]. unfold normalize; cbn.
    now rewrite strip_alpha_idempotent.
Qed.

(** [normalize] fails on the infinite floats only. *)
Lemma normalize_finite (x : value) :
  is_infinite x = false -> exists y, normalize x = Ok y.
Proof.
  destruct x as [[f|z|b]|s]; unfold normalize; cbn; try (eexists; reflexivity).
  destruct f; cbn; try discriminate; intros _; eexists; reflexivity.
Qed.

Lemma normalize_infinite (x : value) :
  is_infinite x = true ->
  normalize x = Raise (OverflowError "cannot convert float infinity to integer").
Proof.
  destruct x as [[f|z|b]|s]; try discriminate.
  destruct f; try discriminate. reflexivity.
Qed.

End Normalize.

Section Truncation.
Import BiciMad.

Lemma truncation_of_integer (z : Z) : truncation_of (inject_Z z) z.
Proof.
  unfold truncation_of. split; intros _; split;
    try apply Qle_refl; rewrite <- Zlt_Qlt; lia.
Qed.

Lemma truncation_of_dyadic (s : bool) (m k : positive) :
  truncation_of (Qmake (cond_Zopp s (Zpos m)) (Pos.pow 2 k))
    (cond_Zopp s (Z.shiftl (Zpos m) (Zneg k))).
Proof.
  rewrite Z.shiftl_div_pow2 by lia.
  change (- Zneg k) with (Zpos k).
  set (d := 2 ^ Zpos k).
  assert (Hd : Zpos (Pos.pow 2 k) = d) by (unfold d; now rewrite Pos2Z.inj_pow).
  assert (Hd0 : 0 < d) by (unfold d; apply Z.pow_pos_nonneg; lia).
  pose proof (Z.mul_div_le (Zpos m) d Hd0) as L.
  pose proof (Z.mul_succ_div_gt (Zpos m) d Hd0) as U.
  set (a := Zpos m / d) in *.
  unfold truncation_of, Qle, Qlt, inject_Z; cbn [Qnum Qden].
  rewrite Hd. destruct s; cbn [cond_Zopp]; split; intros H; split; nia.
Qed.

(** [F64.trunc] is the integer truncation of the exact value. *)
Lemma trunc_truncation (f : F64.float) (z : Z) :
  F64.trunc f = Some z ->
  exists q, F64.to_exact f = F64.Fin q /\ truncation_of q z.
Proof.
  destruct f as [s|s| |s m e]; cbn [F64.trunc]; try discriminate.
  - intros [= <-]. exists 0%Q. split; [reflexivity|].
    apply (truncation_of_integer 0).
  - intros [= <-]. destruct e as [|e|k].
    + eexists. split; [reflexivity|]. apply truncation_of_integer.
    + eexists. split; [reflexivity|]. apply truncation_of_integer.
    + eexists. split; [reflexivity|]. apply truncation_of_dyadic.
Qed.

(** [normalize] does what the specification words. *)
Lemma normalize_normalized (x y : value) :
  normalize x = Ok y -> normalized x y.
Proof.
  destruct x as [[f|z|b]|s]; unfold normalize; cbn.
  - destruct (F64.is_nan f) eqn:N; cbn.
    + intros [= <-]. apply normalized_null. cbn. now rewrite N.
    + destruct (F64.trunc f) as [z|] eqn:T; cbn; [|discriminate].
      intros [= <-].
      destruct (trunc_truncation f z T) as (q & Hq & Ht).
      now apply (normalized_number (NFloat f) q z).
  - intros [= <-].
    apply (normalized_number (NInt z) (inject_Z z) z); [reflexivity|].
    apply truncation_of_integer.
  - intros [= <-].
    apply (normalized_number (NBool b) (inject_Z (Z.b2z b)) (Z.b2z b));
      [reflexivity|].
    apply truncation_of_integer.
  - intros [= <-]. apply normalized_text.
Qed.

End Truncation.

Section CleanColumns.
Import BiciMad.

Lemma set_get_col (c : id_column) (r : row) : set_col c (get_col c r) r = r.
Proof. destruct c, r; reflexivity. Qed.

Lemma get_set_col (c : id_column) (v : value) (r : row) :
  get_col c (set_col c v r) = v.
Proof. destruct c; reflexivity. Qed.

Lemma get_set_col_other (c c' : id_column) (v : value) (r : row) :
  c <> c' -> get_col c' (set_col c v r) = get_col c' r.
Proof. destruct c, c'; congruence || reflexivity. Qed.

Lemma id_column_eq_dec (c c' : id_column) : {c = c'} + {c <> c'}.
Proof. decide equality. Qed.

Lemma all_null_set_col (c : id_column) (v : value) (r : row) :
  notna v = notna (get_col c r) -> all_null (set_col c v r) = all_null r.
Proof.
  intros H. destruct c; cbn in H; unfold all_null, isnull; cbn;
    now rewrite H.
Qed.

Lemma series_map_assign (c : id_column) (t : table) (vs : list value) :
  series_map normalize (map (get_col c) t) = Ok vs ->
  Forall2 (column_step c) t (assign_col c vs t).
Proof.
  revert vs; induction t as [|r t IH]; intros vs; cbn.
  - intros [= <-]. constructor.
  - destruct (normalize (get_col c r)) as [v|e] eqn:N; cbn; [|discriminate].
    destruct (series_map normalize (map (get_col c) t)) as [ws|e] eqn:M;
      cbn; [|discriminate].
    intros [= <-]. cbn. constructor.
    + exists v. split; [exact N | reflexivity].
    + now apply IH.
Qed.

Lemma clean_column_step (c : id_column) (t t' : table) :
  clean_column c t = Ok t' -> Forall2 (column_step c) t t'.
Proof.
  unfold clean_column.
  destruct (series_map normalize (map (get_col c) t)) as [vs|e] eqn:M;
    cbn; [|discriminate].
  intros [= <-]. now apply series_map_assign.
Qed.

Lemma clean_column_done (c : id_column) (t : table) :
  column_done c t -> clean_column c t = Ok t.
Proof.
  unfold clean_column. induction 1 as [|r t Hr Ht IH]; [reflexivity|].
  cbn. rewrite Hr. cbn.
  destruct (series_map normalize (map (get_col c) t)) as [vs|e]; cbn in *;
    [|discriminate].
  injection IH as IH. cbn. now rewrite set_get_col, IH.
Qed.

Lemma column_step_done (c : id_column) (t t' : table) :
  Forall2 (column_step c) t t' -> column_done c t'.
Proof.
  induction 1 as [|r r' t t' (v & Hv & ->) _ IH]; constructor; [|exact IH].
  rewrite get_set_col. now apply normalize_idempotent with (x := get_col c r).
Qed.

Lemma column_step_keeps_done (c c' : id_column) (t t' : table) :
  c <> c' -> Forall2 (column_step c) t t' ->
  column_done c' t -> column_done c' t'.
Proof.
  intros Hc. induction 1 as [|r r' t t' (v & Hv & ->) _ IH];
    intros D; [constructor|].
  inversion D as [|? ? Hr Ht]; subst. constructor.
  - now rewrite get_set_col_other.
  - now apply IH.
Qed.

Lemma column_step_all_null (c : id_column) (t t' : table) :
  Forall2 (column_step c) t t' -> map all_null t' = map all_null t.
Proof.
  induction 1 as [|r r' t t' (v & Hv & ->) _ IH]; [reflexivity|].
  cbn. rewrite IH. f_equal. apply all_null_set_col.
  now apply normalize_notna.
Qed.

Lemma clean_columns_all_null (cs : list id_column) (t : table) :
  map all_null (fst (clean_columns cs t)) = map all_null t.
Proof.
  revert t; induction cs as [|c cs IH]; intros t; cbn; [reflexivity|].
  destruct (clean_column c t) as [t'|e] eqn:E; [|reflexivity].
  rewrite IH. apply column_step_all_null with (c := c).
  now apply clean_column_step.
Qed.

(** Columns already done are passed over. *)
Lemma clean_columns_done (done cs : list id_column) (t : table) :
  (forall c, In c done -> column_done c t) ->
  clean_columns (done ++ cs) t = clean_columns cs t.
Proof.
  induction done as [|c done IH]; intros H; [reflexivity|].
  cbn. rewrite clean_column_done by (apply H; now left).
  apply IH. intros c' Hc'. apply H. now right.
Qed.

(** Running the loop again, from its first column, on the frame it left
    changes nothing and ends the same way. *)
Lemma clean_columns_again (cs done : list id_column) (t : table) :
  (forall c, In c done -> column_done c t) ->
  clean_columns (done ++ cs) (fst (clean_columns cs t)) = clean_columns cs t.
Proof.
  revert done t; induction cs as [|c cs IH]; intros done t H.
  - cbn. rewrite clean_columns_done by exact H. reflexivity.
  - cbn [clean_columns].
    destruct (clean_column c t) as [t'|e] eqn:E.
    + replace (done ++ c :: cs)%list with ((done ++ [c]) ++ cs)%list
        by now rewrite <- app_assoc.
      apply IH. intros c' Hc'.
      pose proof (clean_column_step c t t' E) as St.
      destruct (id_column_eq_dec c c') as [<-|Hne].
      * now apply column_step_done with (t := t).
      * apply column_step_keeps_done with (c := c) (t := t); auto.
        apply H. apply in_app_or in Hc' as [Hc'|[Hc'|[]]]; congruence.
    + cbn [fst]. rewrite clean_columns_done by exact H.
      cbn [clean_columns]. now rewrite E.
Qed.

Lemma dropna_all_fixed (t : table) :
  Forall (fun r => all_null r = false) t -> dropna_all t = t.
Proof.
  unfold dropna_all. induction 1 as [|r t Hr _ IH]; [reflexivity|].
  cbn. now rewrite Hr, IH.
Qed.

Lemma dropna_all_none_null (t : table) :
  Forall (fun r => all_null r = false) (dropna_all t).
Proof.
  apply Forall_forall. intros r Hr.
  apply filter_In in Hr as [_ Hr]. now apply negb_true_iff in Hr.
Qed.

Lemma map_all_null_false (t t' : table) :
  map all_null t' = map all_null t ->
  Forall (fun r => all_null r = false) t ->
  Forall (fun r => all_null r = false) t'.
Proof.
  revert t'; induction t as [|r t IH]; intros [|r' t'] E F;
    try discriminate; constructor; inversion F; subst;
    injection E as E1 E2; [congruence | now apply IH].
Qed.

End CleanColumns.

Section CleanOutcome.
Import BiciMad.

Lemma series_map_normalize_cases (xs : list value) :
  match series_map normalize xs with
  | Ok _ => forallb (fun x => negb (is_infinite x)) xs = true
  | Raise e => e = overflow /\ forallb (fun x => negb (is_infinite x)) xs = false
  end.
Proof.
  induction xs as [|x xs IH]; cbn; [reflexivity|].
  destruct (is_infinite x) eqn:I.
  - rewrite normalize_infinite by exact I. cbn. now split.
  - destruct (normalize_finite x I) as [y ->]. cbn.
    destruct (series_map normalize xs) as [ys|e]; cbn; exact IH.
Qed.

Lemma clean_column_cases (c : id_column) (t : table) :
  match clean_column c t with
  | Ok _ => column_finite t c = true
  | Raise e => e = overflow /\ column_finite t c = false
  end.
Proof.
  unfold clean_column, column_finite.
  assert (M : forallb (fun x => negb (is_infinite x)) (map (get_col c) t)
              = forallb (fun r => negb (is_infinite (get_col c r))) t)
    by (induction t as [|r t IH]; cbn; [reflexivity | now rewrite IH]).
  pose proof (series_map_normalize_cases (map (get_col c) t)) as H.
  rewrite M in H.
  destruct (series_map normalize (map (get_col c) t)); exact H.
Qed.

Lemma column_step_finite (c c' : id_column) (t t' : table) :
  c <> c' -> Forall2 (column_step c) t t' ->
  column_finite t' c' = column_finite t c'.
Proof.
  intros Hc. unfold column_finite.
  induction 1 as [|r r' t t' (v & Hv & ->) _ IH]; [reflexivity|].
  cbn. now rewrite IH, get_set_col_other.
Qed.

Lemma column_step_cleaned (c : id_column) (r r' : row) :
  column_step c r r' -> columns_cleaned [c] r r'.
Proof.
  intros (v & Hv & ->). split.
  - destruct c; repeat split.
  - intros c'. split.
    + intros [<-|[]]. now rewrite get_set_col.
    + intros Hn. apply get_set_col_other. intros <-. apply Hn. now left.
Qed.

Lemma columns_cleaned_nil (r : row) : columns_cleaned [] r r.
Proof.
  split; [repeat split|]. intros c. split; [intros []|reflexivity].
Qed.

Lemma columns_cleaned_cons (c : id_column) (cs : list id_column)
  (r r1 r' : row) :
  ~ In c cs -> column_step c r r1 -> columns_cleaned cs r1 r' ->
  columns_cleaned (c :: cs) r r'.
Proof.
  intros Hc St (So & Hcs).
  destruct (column_step_cleaned c r r1 St) as (So1 & H1).
  split.
  - unfold same_other_columns in *.
    repeat match goal with H : _ /\ _ |- _ => destruct H end.
    repeat split; congruence.
  - intros c'. split.
    + intros [<-|Hin].
      * rewrite (proj2 (Hcs c) Hc). apply (proj1 (H1 c)). now left.
      * rewrite <- (proj1 (Hcs c') Hin). f_equal. symmetry.
        apply (proj2 (H1 c')). intros [<-|[]]. contradiction.
    + intros Hn.
      rewrite (proj2 (Hcs c')) by (intros Hin; apply Hn; now right).
      apply (proj2 (H1 c')). intros [<-|[]]. apply Hn. now left.
Qed.

Lemma Forall2_columns_cleaned_cons (c : id_column) (cs : list id_column)
  (t t1 t' : table) :
  ~ In c cs -> Forall2 (column_step c) t t1 ->
  Forall2 (columns_cleaned cs) t1 t' ->
  Forall2 (columns_cleaned (c :: cs)) t t'.
Proof.
  intros Hc H. revert t'.
  induction H as [|r r1 t t1 Hr _ IH]; intros t' H'; inversion H'; subst;
    constructor.
  - now apply columns_cleaned_cons with (r1 := r1).
  - now apply IH.
Qed.

Lemma Forall2_length_eq {A B : Type} (R : A -> B -> Prop) (l : list A)
  (l' : list B) :
  Forall2 R l l' -> List.length l = List.length l'.
Proof. induction 1; cbn; congruence. Qed.

(** The loop ends well exactly when no column to clean holds an
    infinite float; otherwise it raises [OverflowError]. *)
Lemma clean_columns_cases (cs : list id_column) (t : table) :
  NoDup cs ->
  if forallb (column_finite t) cs
  then exists t', clean_columns cs t = (t', Ok tt)
                  /\ Forall2 (columns_cleaned cs) t t'
  else exists t', clean_columns cs t = (t', Raise overflow)
                  /\ List.length t' = List.length t.
Proof.
  revert t; induction cs as [|c cs IH]; intros t ND.
  - cbn. exists t. split; [reflexivity|].
    induction t; constructor; auto using columns_cleaned_nil.
  - inversion ND as [|? ? Hc ND']; subst.
    cbn [forallb clean_columns].
    pose proof (clean_column_cases c t) as C.
    destruct (clean_column c t) as [t1|e] eqn:E.
    + rewrite C. cbn [andb].
      pose proof (clean_column_step c t t1 E) as St.
      assert (F : forallb (column_finite t1) cs = forallb (column_finite t) cs).
      { clear - Hc St. induction cs as [|c' cs IHcs]; [reflexivity|].
        cbn [forallb]. rewrite IHcs by (intros H; apply Hc; now right).
        f_equal. apply column_step_finite with (c := c); auto.
        intros <-. apply Hc. now left. }
      specialize (IH t1 ND'). rewrite F in IH.
      destruct (forallb (column_finite t) cs).
      * destruct IH as (t' & Ht' & R). exists t'. split; [exact Ht'|].
        now apply Forall2_columns_cleaned_cons with (t1 := t1).
      * destruct IH as (t' & Ht' & L). exists t'. split; [exact Ht'|].
        rewrite L. symmetry. now apply Forall2_length_eq in St.
    + destruct C as [-> C]. rewrite C. cbn [andb].
      exists t. now split.
Qed.

Lemma finite_ids_columns (t : table) :
  forallb finite_ids t
  = forallb (column_finite t) [Cfleet; CidBike; Cstation_lock; Cstation_unlock].
Proof.
  unfold column_finite.
  induction t as [|r t IH]; [reflexivity|].
  cbn [forallb] in *. rewrite IH. unfold finite_ids. cbn [get_col].
  destruct (is_infinite (fleet r)), (is_infinite (idBike r)),
    (is_infinite (station_lock r)), (is_infinite (station_unlock r));
    cbn [negb andb]; rewrite ?andb_true_r, ?andb_false_r; try reflexivity.
Qed.

Lemma columns_cleaned_row (r r' : row) :
  columns_cleaned [Cfleet; CidBike; Cstation_lock; Cstation_unlock] r r' ->
  cleaned_row r r'.
Proof.
  intros (So & H).
  assert (N : forall c, normalized (get_col c r) (get_col c r')).
  { intros c. apply normalize_normalized. apply (proj1 (H c)).
    destruct c; cbn; auto. }
  unfold cleaned_row.
  split; [exact (N Cfleet)|]. split; [exact (N CidBike)|].
  split; [exact (N Cstation_lock)|]. split; [exact (N Cstation_unlock)|].
  exact So.
Qed.

End CleanOutcome.

Section CleanClaims.
Import BiciMad Fixture.

(** C1, as amended.  [clean] first drops the rows whose fourteen columns
    are all missing (the index [unlock_date] is not looked at) and keeps
    the others in order.  If no identifier column ([fleet], [idBike],
    [station_lock], [station_unlock]) of a kept row holds an infinite
    float, the call ends well and every kept row has become a row with
    each identifier normalized (a missing value unchanged, a number
    replaced by the text of its integer truncation, a text replaced by
    itself without its ASCII letters), the index and the other columns
    unchanged, and no row with all columns missing; otherwise the call
    raises [OverflowError]. *)
Theorem clean_drops_and_normalizes (t : table) :
  dropna_all t = filter (fun r => negb (all_null r)) t
  /\ (forall r, In r (dropna_all t) <-> In r t /\ all_null r = false)
  /\ if forallb finite_ids (dropna_all t)
     then exists t',
         clean t = (t', Ok tt)
         /\ Forall2 cleaned_row (dropna_all t) t'
         /\ Forall (fun r => all_null r = false) t'
     else exists t',
         clean t = (t', Raise overflow)
         /\ List.length t' = List.length (dropna_all t).
Proof.
  split; [reflexivity|]. split.
  - intros r. unfold dropna_all. rewrite filter_In, negb_true_iff. tauto.
  - rewrite finite_ids_columns.
    pose proof (clean_columns_cases
                  [Cfleet; CidBike; Cstation_lock; Cstation_unlock]
                  (dropna_all t)) as C.
    assert (ND : NoDup [Cfleet; CidBike; Cstation_lock; Cstation_unlock]).
    { repeat constructor; cbn; intuition discriminate. }
    specialize (C ND).
    destruct (forallb (column_finite (dropna_all t)) _).
    + destruct C as (t' & E & R). exists t'. split; [exact E|]. split.
      * eapply Forall2_impl; [|exact R]. exact columns_cleaned_row.
      * apply map_all_null_false with (t := dropna_all t).
        -- pose proof (clean_columns_all_null
                         [Cfleet; CidBike; Cstation_lock; Cstation_unlock]
                         (dropna_all t)) as A.
           unfold clean in E. now rewrite E in A.
        -- apply dropna_all_none_null.
    + exact C.
Qed.

Lemma clean_drops_and_normalizes_witness :
  exists t', clean fake_csv = (t', Ok tt)
             /\ Forall2 cleaned_row (dropna_all fake_csv) t'
             /\ Forall (fun r => all_null r = false) t'.
Proof.
  pose proof (clean_drops_and_normalizes fake_csv) as (_ & _ & H).
  exact H.
Defined.

(** On a table with an infinite [idBike], [clean] raises and the value
    is not replaced; a row that has nothing but its index is dropped. *)
Lemma clean_infinite_counterexample :
  clean [inf_row]
  = ([set_col Cfleet (Str "1") inf_row], Raise overflow)
  /\ map idBike (fst (clean [inf_row])) = [Num (NFloat (S754_infinity false))]
  /\ isnat (unlock_date index_only_row) = false
  /\ clean [index_only_row] = ([], Ok tt).
Proof. repeat split; vm_compute; reflexivity. Qed.

(** C7. [clean] is idempotent: called again on the frame it left, it
    removes no row, rewrites every value to itself and ends as the first
    call did (also when the first call raised). *)
Theorem clean_idempotent (t : table) :
  clean (fst (clean t)) = clean t.
Proof.
  unfold clean at 1.
  rewrite dropna_all_fixed.
  - unfold clean.
    apply (clean_columns_again
             [Cfleet; CidBike; Cstation_lock; Cstation_unlock] []).
    intros c [].
  - unfold clean.
    apply map_all_null_false with (t := dropna_all t).
    + apply clean_columns_all_null.
    + apply dropna_all_none_null.
Qed.

End CleanClaims.


(** ** [groupby(...).size()] *)

Section GroupSizes.
Import BiciMad.
Context {K : Type} (eqb : K -> K -> bool) (valid : K -> Prop).
Hypothesis eqb_refl : forall k, valid k -> eqb k k = true.
Hypothesis eqb_sym : forall a b, eqb a b = eqb b a.
Hypothesis eqb_trans :
  forall a b c, eqb a b = true -> eqb b c = true -> eqb a c = true.

Lemma eqb_equal_left (a b c : K) : eqb a b = true -> eqb a c = eqb b c.
Proof.
  intros H. destruct (eqb b c) eqn:E.
  - now apply eqb_trans with (b := b).
  - destruct (eqb a c) eqn:E'; [|reflexivity].
    rewrite <- E. symmetry. apply eqb_trans with (b := a); [|exact E'].
    now rewrite eqb_sym.
Qed.

Lemma count_key_app (k : K) (l l' : list K) :
  count_key eqb k (l ++ l') = (count_key eqb k l + count_key eqb k l')%nat.
Proof. unfold count_key. now rewrite filter_app, List.length_app. Qed.

Lemma count_key_equal (a b : K) (keys : list K) :
  eqb a b = true -> count_key eqb a keys = count_key eqb b keys.
Proof.
  intros H. unfold count_key. f_equal. apply filter_ext.
  intros c. now apply eqb_equal_left.
Qed.

Lemma count_key_pos (k : K) (keys : list K) :
  valid k -> In k keys -> (1 <= count_key eqb k keys)%nat.
Proof.
  intros V H. unfold count_key.
  assert (I : In k (filter (eqb k) keys))
    by (apply filter_In; split; auto).
  destruct (filter (eqb k) keys); [destruct I | cbn; lia].
Qed.

Lemma counted_bump (k0 k : K) (counts : list (K * nat)) :
  counted eqb k0 (bump eqb k counts)
  = (counted eqb k0 counts + if eqb k0 k then 1 else 0)%nat.
Proof.
  induction counts as [|[k' n] rest IH]; cbn.
  - rewrite (eqb_sym k k0). lia.
  - destruct (eqb k' k) eqn:E; cbn.
    + rewrite (eqb_sym k0 k), <- (eqb_equal_left k' k k0 E).
      destruct (eqb k' k0); lia.
    + rewrite IH. lia.
Qed.

Lemma counted_group_sizes_from (k0 : K) (keys : list K)
  (counts : list (K * nat)) :
  counted eqb k0 (fold_left (fun cs k => bump eqb k cs) keys counts)
  = (counted eqb k0 counts + count_key eqb k0 keys)%nat.
Proof.
  revert counts; induction keys as [|k keys IH]; intros counts;
    cbn [fold_left].
  - unfold count_key; cbn. lia.
  - rewrite IH, counted_bump.
    change (k :: keys) with ([k] ++ keys)%list.
    rewrite count_key_app. unfold count_key at 2. cbn.
    destruct (eqb k0 k); cbn; lia.
Qed.

(** The rows counted under a key are the rows that have the key. *)
Lemma counted_group_sizes (k0 : K) (keys : list K) :
  counted eqb k0 (group_sizes eqb keys) = count_key eqb k0 keys.
Proof. unfold group_sizes. now rewrite counted_group_sizes_from. Qed.

Lemma bump_keys (k : K) (counts : list (K * nat)) (e : K * nat) :
  In e (bump eqb k counts) ->
  fst e = k \/ exists e', In e' counts /\ fst e' = fst e.
Proof.
  induction counts as [|[k' n] rest IH]; cbn.
  - intros [<-|[]]. now left.
  - destruct (eqb k' k).
    + intros [<-|H]; right.
      * exists (k', n). split; [now left | reflexivity].
      * exists e. split; [now right | reflexivity].
    + intros [<-|H].
      * right. exists (k', n). split; [now left | reflexivity].
      * destruct (IH H) as [->|(e' & He' & Hf)]; [now left|].
        right. exists e'. split; [now right | exact Hf].
Qed.

Lemma bump_distinct (k : K) (counts : list (K * nat)) :
  distinct_keys eqb counts -> distinct_keys eqb (bump eqb k counts).
Proof.
  induction counts as [|[k' n] rest IH]; cbn.
  - intros _. split; [intros e []|exact I].
  - intros [Hk Hr]. destruct (eqb k' k) eqn:E; cbn.
    + split; assumption.
    + split; [|now apply IH].
      intros e He. destruct (bump_keys k rest e He) as [->|(e' & He' & <-)].
      * exact E.
      * now apply Hk.
Qed.

Lemma group_sizes_from_invariant (keys seen : list K)
  (counts : list (K * nat)) :
  distinct_keys eqb counts ->
  (forall e, In e counts -> In (fst e) seen) ->
  let result := fold_left (fun cs k => bump eqb k cs) keys counts in
  distinct_keys eqb result
  /\ forall e, In e result -> In (fst e) (seen ++ keys).
Proof.
  revert seen counts; induction keys as [|k keys IH]; intros seen counts D S.
  - cbn. split; [exact D|]. intros e He. rewrite app_nil_r. now apply S.
  - cbn [fold_left].
    destruct (IH (seen ++ [k])%list (bump eqb k counts)) as [D' S'].
    + now apply bump_distinct.
    + intros e He. apply in_or_app.
      destruct (bump_keys k counts e He) as [->|(e' & He' & <-)].
      * right. now left.
      * left. now apply S.
    + split; [exact D'|]. intros e He.
      rewrite <- app_assoc in S'. now apply S'.
Qed.

Lemma counted_entry (counts : list (K * nat)) (k : K) (n : nat) :
  distinct_keys eqb counts -> valid k -> In (k, n) counts ->
  counted eqb k counts = n.
Proof.
  intros D V. induction counts as [|[k' m] rest IH]; cbn; [intros []|].
  destruct D as [Hk Hr]. intros [[= -> ->]|H].
  - rewrite eqb_refl by exact V.
    assert (Z : counted eqb k rest = 0%nat).
    { clear IH Hr. induction rest as [|[k2 m2] rest IH]; cbn; [reflexivity|].
      pose proof (Hk (k2, m2) (or_introl eq_refl)) as E. cbn in E.
      rewrite (eqb_sym k2 k), E.
      apply IH. intros e He. apply Hk. now right. }
    lia.
  - pose proof (Hk (k, n) H) as E. cbn in E. rewrite E. cbn. now apply IH.
Qed.

Lemma counted_pos (counts : list (K * nat)) (k : K) :
  (1 <= counted eqb k counts)%nat ->
  exists k' n, In (k', n) counts /\ eqb k' k = true.
Proof.
  induction counts as [|[k' m] rest IH]; cbn; [lia|].
  destruct (eqb k' k) eqn:E.
  - intros _. exists k', m. split; [now left | exact E].
  - intros H. destruct (IH H) as (k2 & n & Hin & He).
    exists k2, n. split; [now right | exact He].
Qed.

(** The entries of [group_sizes]: each is a key of the list with the
    number of keys equal to it, and each key of the list has one. *)
Lemma group_sizes_entries (keys : list K) :
  Forall valid keys ->
  (forall k n, In (k, n) (group_sizes eqb keys) ->
               In k keys /\ n = count_key eqb k keys)
  /\ (forall k, In k keys ->
                exists k' n, In (k', n) (group_sizes eqb keys)
                             /\ eqb k' k = true).
Proof.
  intros V.
  destruct (group_sizes_from_invariant keys [] []) as [D S];
    [exact I | intros e [] |].
  cbn in S. fold (group_sizes eqb keys) in D, S.
  split.
  - intros k n H. pose proof (S (k, n) H) as Hk. cbn in Hk.
    split; [exact Hk|].
    rewrite <- counted_group_sizes. symmetry.
    apply counted_entry; auto.
    rewrite Forall_forall in V. now apply V.
  - intros k Hk. apply counted_pos. rewrite counted_group_sizes.
    apply count_key_pos; auto.
    rewrite Forall_forall in V. now apply V.
Qed.

Lemma max_count_spec (counts : list (K * nat)) :
  match max_count counts with
  | None => counts = []
  | Some m =>
      (exists k, In (k, m) counts)
      /\ forall k n, In (k, n) counts -> (n <= m)%nat
  end.
Proof.
  destruct counts as [|e counts]; [reflexivity|].
  unfold max_count. generalize (e :: counts) (@nil_cons _ e counts).
  clear e counts. intros counts Hne.
  induction counts as [|[k n] rest IH]; [congruence|].
  cbn [map fold_right snd].
  destruct rest as [|e rest].
  - cbn. rewrite Nat.max_0_r. split.
    + exists k. now left.
    + intros k' n' [[= -> ->]|[]]. lia.
  - destruct IH as [(k' & Hk') Hle]; [discriminate|].
    set (m := fold_right Nat.max 0%nat (map snd (e :: rest))) in *.
    split.
    + destruct (Nat.max_spec n m) as [[_ ->]|[_ ->]].
      * exists k'. now right.
      * exists k. now left.
    + intros k2 n2 [[= -> ->]|H]; [lia|].
      specialize (Hle k2 n2 H). lia.
Qed.

End GroupSizes.

Section SetOf.
Context {K : Type} (eqb : K -> K -> bool) (valid : K -> Prop).
Hypothesis eqb_refl : forall k, valid k -> eqb k k = true.
Hypothesis eqb_trans :
  forall a b c, eqb a b = true -> eqb b c = true -> eqb a c = true.

Lemma set_of_incl (xs : list K) (x : K) :
  In x (set_of eqb xs) -> In x xs.
Proof.
  revert x; induction xs as [|y xs IH]; intros x; cbn; [tauto|].
  intros [->|H]; [now left|]. right. apply IH.
  now apply filter_In in H as [H _].
Qed.

Lemma set_of_cover (xs : list K) (x : K) :
  valid x -> In x xs -> exists y, In y (set_of eqb xs) /\ eqb y x = true.
Proof.
  intros V. induction xs as [|z xs IH]; cbn; [tauto|].
  intros [->|H].
  - exists x. split; [now left | now apply eqb_refl].
  - destruct (IH H) as (y & Hy & E).
    destruct (eqb z y) eqn:Z.
    + exists z. split; [now left | now apply eqb_trans with (b := y)].
    + exists y. split; [|exact E]. right.
      apply filter_In. split; [exact Hy | now rewrite Z].
Qed.

End SetOf.

(** ** Equality of cells *)

Section CellEquality.
Import BiciMad.

Lemma exact_eqb_sym (a b : F64.exact) : F64.exact_eqb a b = F64.exact_eqb b a.
Proof.
  destruct a as [p|s|], b as [q|s'|]; cbn; try reflexivity.
  - destruct (Qeq_bool p q) eqn:E, (Qeq_bool q p) eqn:E'; try reflexivity.
    + apply Qeq_bool_iff in E. symmetry in E. apply Qeq_bool_iff in E.
      congruence.
    + apply Qeq_bool_iff in E'. symmetry in E'. apply Qeq_bool_iff in E'.
      congruence.
  - now destruct s, s'.
Qed.

Lemma exact_eqb_trans (a b c : F64.exact) :
  F64.exact_eqb a b = true -> F64.exact_eqb b c = true ->
  F64.exact_eqb a c = true.
Proof.
  destruct a as [p|s|], b as [q|s'|], c as [r|s''|]; cbn;
    try discriminate; try reflexivity.
  - intros H1 H2. apply Qeq_bool_iff in H1, H2. apply Qeq_bool_iff.
    now rewrite H1.
  - destruct s, s', s''; cbn; congruence.
Qed.

Lemma exact_eqb_refl (n : number) :
  notna (Num n) = true -> F64.exact_eqb (num_exact n) (num_exact n) = true.
Proof.
  assert (Q : forall q, Qeq_bool q q = true)
    by (intros q; apply Qeq_bool_iff; reflexivity).
  destruct n as [f|z|b]; cbn; auto.
  destruct f as [s|s| |s m e]; cbn; auto; try discriminate.
  - now destruct s.
  - destruct e; cbn; auto.
Qed.

Lemma py_eqb_refl (x : value) : notna x = true -> py_eqb x x = true.
Proof.
  destruct x as [n|s]; intros H.
  - now apply exact_eqb_refl.
  - apply String.eqb_refl.
Qed.

Lemma py_eqb_sym (x y : value) : py_eqb x y = py_eqb y x.
Proof.
  destruct x as [n|s], y as [n'|s']; cbn; try reflexivity.
  - apply exact_eqb_sym.
  - apply String.eqb_sym.
Qed.

Lemma py_eqb_trans (x y z : value) :
  py_eqb x y = true -> py_eqb y z = true -> py_eqb x z = true.
Proof.
  destruct x as [n|s], y as [n'|s'], z as [n''|s'']; cbn;
    try discriminate.
  - apply exact_eqb_trans.
  - intros H1 H2. apply String.eqb_eq in H1, H2. subst.
    apply String.eqb_refl.
Qed.

(** A missing value is equal to nothing. *)
Lemma py_eqb_null (x y : value) : py_eqb x y = true -> notna y = true.
Proof.
  destruct x as [n|s], y as [[f|z|b]|s']; cbn; try discriminate; auto.
  destruct f; cbn; auto.
  destruct (num_exact n); discriminate.
Qed.

Lemma pair_eqb_refl (k : value * value) : valid_pair k -> pair_eqb k k = true.
Proof.
  intros [H1 H2]. unfold pair_eqb. now rewrite !py_eqb_refl.
Qed.

Lemma pair_eqb_sym (k k' : value * value) : pair_eqb k k' = pair_eqb k' k.
Proof.
  unfold pair_eqb. now rewrite (py_eqb_sym (fst k)), (py_eqb_sym (snd k)).
Qed.

Lemma pair_eqb_trans (a b c : value * value) :
  pair_eqb a b = true -> pair_eqb b c = true -> pair_eqb a c = true.
Proof.
  unfold pair_eqb. intros H1 H2.
  apply andb_prop in H1 as [H1 H1'], H2 as [H2 H2'].
  apply andb_true_intro. split; eapply py_eqb_trans; eauto.
Qed.

End CellEquality.

(** ** The statistics *)

Section Statistics.
Import BiciMad Fixture.

Lemma In_keys_of {K : Type} (key : row -> option K) (t : table) (k : K) :
  In k (keys_of key t) <-> exists r, In r t /\ key r = Some k.
Proof.
  induction t as [|r t IH]; cbn.
  - split; [tauto | intros (r & [] & _)].
  - destruct (key r) as [k'|] eqn:E; cbn; rewrite ?IH; split.
    + intros [<-|(r' & Hr' & Hk)]; [exists r | exists r']; auto.
    + intros (r' & [<-|Hr'] & Hk); [left; congruence | right; eauto].
    + intros (r' & Hr' & Hk). eauto.
    + intros (r' & [<-|Hr'] & Hk); [congruence | eauto].
Qed.

Lemma count_keys_of {K : Type} (key : row -> option K)
  (eqb : K -> K -> bool) (k : K) (t : table) :
  count_key eqb k (keys_of key t) = rows_in_group key eqb k t.
Proof.
  unfold count_key, rows_in_group.
  induction t as [|r t IH]; cbn; [reflexivity|].
  destruct (key r) as [k'|]; cbn; [|exact IH].
  destruct (eqb k k'); cbn; now rewrite IH.
Qed.

Lemma station_keys_valid (t : table) :
  Forall (fun k => notna k = true) (keys_of station_key t).
Proof.
  apply Forall_forall. intros k Hk.
  apply In_keys_of in Hk as (r & _ & Hr). unfold station_key in Hr.
  destruct (notna (station_unlock r)) eqn:E; [|discriminate].
  now injection Hr as <-.
Qed.

Lemma pair_keys_valid (t : table) :
  Forall valid_pair (keys_of pair_key t).
Proof.
  apply Forall_forall. intros k Hk.
  apply In_keys_of in Hk as (r & _ & Hr). unfold pair_key in Hr.
  destruct (notna (station_unlock r)) eqn:E1; [|discriminate].
  destruct (notna (address_unlock r)) eqn:E2; [|discriminate].
  injection Hr as <-. now split.
Qed.

Lemma station_key_some (r : row) (k : value) :
  station_key r = Some k <-> notna (station_unlock r) = true /\ k = station_unlock r.
Proof.
  unfold station_key. destruct (notna (station_unlock r)); split.
  - now intros [= <-].
  - now intros [_ ->].
  - discriminate.
  - now intros [? _].
Qed.

Lemma station_keys_ext (t t' : table) :
  map station_unlock t' = map station_unlock t ->
  keys_of station_key t' = keys_of station_key t.
Proof.
  revert t'; induction t as [|r t IH]; intros [|r' t'] E; try discriminate;
    [reflexivity|].
  injection E as E1 E2. cbn [keys_of].
  assert (S : station_key r' = station_key r)
    by (unfold station_key; now rewrite E1).
  rewrite S, (IH t' E2). reflexivity.
Qed.

Lemma filter_length_le {A : Type} (f g : A -> bool) (l : list A) :
  (forall x, f x = true -> g x = true) ->
  (List.length (filter f l) <= List.length (filter g l))%nat.
Proof.
  intros H. induction l as [|x l IH]; cbn; [lia|].
  destruct (f x) eqn:F.
  - rewrite (H x F). cbn. lia.
  - destruct (g x); cbn; lia.
Qed.

(** A group of [(station_unlock, address_unlock)] lies inside the group
    of its station. *)
Lemma pair_count_le_station_count (t : table) (k : value * value) :
  (pair_count t k <= station_count t (fst k))%nat.
Proof.
  unfold pair_count, station_count, rows_in_group.
  apply filter_length_le. intros r.
  unfold pair_key, station_key, pair_eqb.
  destruct (notna (station_unlock r)); cbn; [|discriminate].
  destruct (notna (address_unlock r)); cbn; [|discriminate].
  intros H. now apply andb_prop in H as [H _].
Qed.

(** C4, as amended.  For every table with at least one row whose
    [station_unlock] is present, [usage_from_most_popular_station]
    returns the largest number of rows that share one [station_unlock]
    value (rows without one are in no group).  The result depends on
    the column [station_unlock] only, and a group of
    [most_popular_stations], which also looks at the address, is never
    larger than the group of its station. *)
Theorem usage_is_largest_station_group (t : table) :
  (exists r, In r t /\ notna (station_unlock r) = true) ->
  exists n,
    usage_from_most_popular_station t = Ok (Z.of_nat n)
    /\ (exists r, In r t /\ notna (station_unlock r) = true
                  /\ station_count t (station_unlock r) = n)
    /\ (forall r, In r t -> notna (station_unlock r) = true ->
                  (station_count t (station_unlock r) <= n)%nat)
    /\ (forall t', map station_unlock t' = map station_unlock t ->
                   usage_from_most_popular_station t'
                   = usage_from_most_popular_station t)
    /\ (forall r k, In r t -> pair_key r = Some k ->
                    (pair_count t k <= station_count t (station_unlock r))%nat).
Proof.
  intros (r0 & Hr0 & N0).
  unfold usage_from_most_popular_station.
  set (keys := keys_of station_key t).
  destruct (group_sizes_entries py_eqb (fun k => notna k = true)
              py_eqb_refl py_eqb_sym py_eqb_trans keys
              (station_keys_valid t)) as [Ent Cov].
  pose proof (max_count_spec (group_sizes py_eqb keys)) as M.
  assert (K0 : In (station_unlock r0) keys).
  { apply In_keys_of. exists r0. split; [exact Hr0|].
    now apply station_key_some. }
  destruct (max_count (group_sizes py_eqb keys)) as [m|] eqn:EM.
  - destruct M as [(k & Hk) Hle]. exists m.
    split; [reflexivity|]. split; [|split; [|split]].
    + destruct (Ent k m Hk) as [Kin ->].
      apply In_keys_of in Kin as (r & Hr & Hs).
      apply station_key_some in Hs as [Hn ->].
      exists r. repeat split; auto.
      unfold station_count. now rewrite <- count_keys_of.
    + intros r Hr Hn.
      assert (Kr : In (station_unlock r) keys).
      { apply In_keys_of. exists r. split; [exact Hr|].
        now apply station_key_some. }
      destruct (Cov _ Kr) as (k' & n' & Hin & E).
      destruct (Ent k' n' Hin) as [_ ->].
      specialize (Hle k' _ Hin).
      unfold station_count. rewrite <- count_keys_of. fold keys.
      rewrite <- (count_key_equal py_eqb py_eqb_sym py_eqb_trans
                    k' (station_unlock r) keys E).
      exact Hle.
    + intros t' E. unfold keys in EM.
      rewrite (station_keys_ext t t' E), EM. reflexivity.
    + intros r kp Hr Hkp. unfold pair_key in Hkp.
      destruct (notna (station_unlock r) && notna (address_unlock r));
        [|discriminate].
      injection Hkp as <-. apply pair_count_le_station_count.
  - destruct (Cov _ K0) as (k' & n' & Hin & _).
    rewrite M in Hin. destruct Hin.
Qed.

Lemma usage_is_largest_station_group_witness :
  exists n, usage_from_most_popular_station (fst (clean fake_csv))
            = Ok (Z.of_nat n)
            /\ (exists r, In r (fst (clean fake_csv))
                          /\ notna (station_unlock r) = true
                          /\ station_count (fst (clean fake_csv))
                               (station_unlock r) = n).
Proof.
  destruct (usage_is_largest_station_group (fst (clean fake_csv)))
    as (n & H1 & H2 & _).
  - eexists. split; [left; reflexivity | reflexivity].
  - exists n. split; assumption.
Defined.

(** A table of one row whose [station_unlock] is missing is not empty,
    and [usage_from_most_popular_station] raises on it. *)
Lemma usage_no_station_counterexample :
  total_uses [empty_row] = 1
  /\ usage_from_most_popular_station [empty_row]
     = Raise (ValueError "cannot convert float NaN to integer").
Proof. split; reflexivity. Qed.

End Statistics.

Section MostPopular.
Import BiciMad Fixture.

Lemma pair_eqb_address (k k' : value * value) :
  pair_eqb k k' = true -> py_eqb (snd k) (snd k') = true.
Proof. unfold pair_eqb. intros H. now apply andb_prop in H as [_ H]. Qed.

Lemma with_count_In {K : Type} (m : option nat) (counts : list (K * nat))
  (e : K * nat) :
  In e (with_count m counts) <-> In e counts /\ m = Some (snd e).
Proof.
  destruct m as [n|]; cbn.
  - rewrite filter_In. split; intros [H1 H2]; split; auto.
    + apply Nat.eqb_eq in H2. now rewrite H2.
    + injection H2 as ->. apply Nat.eqb_refl.
  - split; [tauto | intros [_ H]; discriminate].
Qed.

(** C3.  [most_popular_stations] returns the addresses of the groups of
    [(station_unlock, address_unlock)] that have the largest number of
    rows: a value is (equal to) a member of the result exactly when it
    is the address of a row whose group is at least as large as every
    group; every member of the result is such an address.  In
    particular, when every group has one row the address of every row
    that has a key is in the result, and for three rows with three
    different keys the result holds the three addresses. *)
Theorem most_popular_stations_groups (t : table) :
  (forall a,
      (exists a', In a' (most_popular_stations t) /\ py_eqb a' a = true)
      <-> (exists r k,
              In r t /\ pair_key r = Some k /\ py_eqb (snd k) a = true
              /\ forall r' k', In r' t -> pair_key r' = Some k' ->
                               (pair_count t k' <= pair_count t k)%nat))
  /\ (forall a', In a' (most_popular_stations t) ->
                 exists r k, In r t /\ pair_key r = Some k /\ snd k = a')
  /\ ((forall r k, In r t -> pair_key r = Some k -> pair_count t k = 1%nat) ->
      forall r k, In r t -> pair_key r = Some k ->
                  exists a', In a' (most_popular_stations t)
                             /\ py_eqb a' (snd k) = true)
  /\ most_popular_stations three_groups
     = [address_unlock row1; address_unlock row2; address_unlock row4].
Proof.
  unfold most_popular_stations.
  set (keys := keys_of pair_key t).
  set (counts := group_sizes pair_eqb keys).
  destruct (group_sizes_entries pair_eqb valid_pair
              pair_eqb_refl pair_eqb_sym pair_eqb_trans keys
              (pair_keys_valid t)) as [Ent Cov].
  fold counts in Ent, Cov.
  pose proof (max_count_spec counts) as M.
  pose proof (pair_keys_valid t) as V. fold keys in V.
  rewrite Forall_forall in V.
  assert (Count : forall k, count_key pair_eqb k keys = pair_count t k)
    by (intros k; apply count_keys_of).
  assert (Member : forall a',
             In a' (set_of py_eqb
                      (map (fun kc => snd (fst kc))
                         (with_count (max_count counts) counts))) ->
             exists r k, In r t /\ pair_key r = Some k /\ snd k = a'
                         /\ max_count counts = Some (pair_count t k)).
  { intros a' H. apply set_of_incl in H.
    apply in_map_iff in H as ([k n] & <- & H).
    apply with_count_In in H as [Hin Hm]. cbn in Hm.
    destruct (Ent k n Hin) as [Kin ->].
    apply In_keys_of in Kin as (r & Hr & Hk).
    exists r, k. rewrite <- Count. auto. }
  assert (Largest : forall r k,
             In r t -> pair_key r = Some k ->
             (forall r' k', In r' t -> pair_key r' = Some k' ->
                            (pair_count t k' <= pair_count t k)%nat) ->
             exists a', In a' (set_of py_eqb
                                 (map (fun kc => snd (fst kc))
                                    (with_count (max_count counts) counts)))
                        /\ py_eqb a' (snd k) = true).
  { intros r k Hr Hk Hmax.
    assert (Kin : In k keys) by (apply In_keys_of; eauto).
    destruct (Cov k Kin) as (k2 & n2 & Hin2 & E2).
    destruct (Ent k2 n2 Hin2) as [Kin2 ->].
    destruct (max_count counts) as [m|] eqn:EM;
      [|rewrite M in Hin2; destruct Hin2].
    destruct M as [(k1 & Hk1) Hle].
    destruct (Ent k1 m Hk1) as [Kin1 Em].
    apply In_keys_of in Kin1 as (r1 & Hr1 & Hkey1).
    assert (E : count_key pair_eqb k2 keys = m).
    { apply Nat.le_antisymm; [now apply (Hle k2)|].
      rewrite (count_key_equal pair_eqb pair_eqb_sym pair_eqb_trans
                 k2 k keys E2).
      rewrite Em, !Count. now apply (Hmax r1 k1). }
    destruct (set_of_cover py_eqb (fun v => notna v = true)
                py_eqb_refl py_eqb_trans
                (map (fun kc => snd (fst kc)) (with_count (Some m) counts))
                (snd k2)) as (a' & Ha' & Ea').
    - apply (V k2 Kin2).
    - apply in_map_iff. exists (k2, count_key pair_eqb k2 keys).
      split; [reflexivity|]. apply with_count_In.
      split; [exact Hin2 | cbn; now rewrite E].
    - exists a'. split; [exact Ha'|].
      apply py_eqb_trans with (y := snd k2); [exact Ea'|].
      now apply pair_eqb_address. }
  split; [|split; [|split]].
  - intros a. split.
    + intros (a' & Ha' & Ea).
      destruct (Member a' Ha') as (r & k & Hr & Hk & <- & Hm).
      exists r, k. repeat split; auto.
      intros r' k' Hr' Hk'.
      assert (Kin' : In k' keys) by (apply In_keys_of; eauto).
      destruct (Cov k' Kin') as (k2 & n2 & Hin2 & E2).
      destruct (Ent k2 n2 Hin2) as [_ ->].
      rewrite Hm in M. destruct M as [_ Hle].
      specialize (Hle k2 _ Hin2).
      rewrite (count_key_equal pair_eqb pair_eqb_sym pair_eqb_trans
                 k2 k' keys E2), Count in Hle.
      exact Hle.
    + intros (r & k & Hr & Hk & Ea & Hmax).
      destruct (Largest r k Hr Hk Hmax) as (a' & Ha' & Ea').
      exists a'. split; [exact Ha'|].
      now apply py_eqb_trans with (y := snd k).
  - intros a' Ha'.
    destruct (Member a' Ha') as (r & k & Hr & Hk & E & _).
    exists r, k. auto.
  - intros Hone r k Hr Hk. apply (Largest r k Hr Hk).
    intros r' k' Hr' Hk'.
    rewrite (Hone r k Hr Hk), (Hone r' k' Hr' Hk'). lia.
  - reflexivity.
Qed.

Lemma most_popular_stations_groups_witness :
  exists a', In a' (most_popular_stations fake_csv)
             /\ py_eqb a' (address_unlock row4) = true.
Proof.
  destruct (most_popular_stations_groups fake_csv) as (_ & _ & H & _).
  apply (H (fun r k Hr Hk => ltac:(
             cbn in Hr;
             repeat (destruct Hr as [<-|Hr];
                     [first [discriminate Hk
                            | injection Hk as <-; reflexivity]|]);
             destruct Hr))
           row4 (station_unlock row4, address_unlock row4)).
  - right; right; right; left; reflexivity.
  - reflexivity.
Defined.

End MostPopular.

Section FixtureClaims.
Import BiciMad Fixture.

(** C2, as amended.  On the table of five rows (four trips and a row of
    missing values) [total_uses] is 5 before [clean] and 4 after it.
    After [clean] the column [station_unlock] reads [111], [112], [112],
    [111.0]: the two rows that share an identifier share [112] (from the
    texts [112] and [112b]), and [usage_from_most_popular_station]
    returns 2. *)
Theorem fixture_scenario :
  total_uses fake_csv = 5
  /\ total_uses (fst (clean fake_csv)) = 4
  /\ snd (clean fake_csv) = Ok tt
  /\ map station_unlock (fst (clean fake_csv))
     = [Str "111"; Str "112"; Str "112"; Str "111.0"]
  /\ station_count (fst (clean fake_csv)) (Str "112") = 2%nat
  /\ usage_from_most_popular_station fake_csv = Ok 1
  /\ usage_from_most_popular_station (fst (clean fake_csv)) = Ok 2.
Proof. repeat split; vm_compute; reflexivity. Qed.

(** The text [111.0] is not a number: [clean] leaves it as it is, and
    one row only has the identifier [111] afterwards. *)
Lemma fixture_station_111_counterexample :
  station_unlock row4 = Str "111.0"
  /\ normalize (Str "111.0") = Ok (Str "111.0")
  /\ station_count (fst (clean fake_csv)) (Str "111") = 1%nat
  /\ py_eqb (Str "111.0") (Str "111") = false.
Proof. repeat split; vm_compute; reflexivity. Qed.

(** C10.  On a table without rows the groups are none, their largest
    count is the NaN of an empty series,
    [usage_from_most_popular_station] raises on converting it to an
    integer, and [most_popular_stations] returns the empty set. *)
Theorem empty_table_statistics :
  max_count (group_sizes py_eqb (keys_of station_key [])) = None
  /\ usage_from_most_popular_station []
     = Raise (ValueError "cannot convert float NaN to integer")
  /\ most_popular_stations [] = [].
Proof. repeat split; reflexivity. Qed.

End FixtureClaims.

(** ** [BiciMad.total_time] *)

Section TotalTime.
Import BiciMad Fixture.







(** The four durations of the test table add up to the float 36.49 in
    whatever order they are added, in turn or in two halves. *)
Lemma durations_any_order :
  List.length (permutations durations) = 24%nat
  /\ forallb (fun l => F64.identical (add_in_turn l) (F64.decimal 3649 100)
                       && F64.identical (add_in_halves l)
                            (F64.decimal 3649 100))
       (permutations durations) = true.
Proof. split; vm_compute; reflexivity. Qed.


End TotalTime.

(* ================================================================= *)
(** * Part III: further properties of the code *)
(* ================================================================= *)

(** ** What [get_links] returns *)

Section LinksFound.
Import UrlEMT Samples Notions.

Lemma set_of_strings_In (xs : list string) (x : string) :
  In x (set_of String.eqb xs) <-> In x xs.
Proof.
  split; [apply set_of_incl|].
  intros H.
  destruct (set_of_cover String.eqb (fun _ => True)
              (fun k _ => String.eqb_refl k)
              (fun a b c H1 H2 =>
                 eq_ind_r (fun a => String.eqb a c = true) H2
                   (proj1 (String.eqb_eq a b) H1))
              xs x I H) as (y & Hy & E).
  apply String.eqb_eq in E. now subst.
Qed.

Lemma set_of_strings_NoDup (xs : list string) : NoDup (set_of String.eqb xs).
Proof.
  induction xs as [|x xs IH]; cbn; constructor.
  - intros H. apply filter_In in H as [_ H].
    now rewrite String.eqb_refl in H.
  - now apply NoDup_filter.
Qed.

(** Every text reported by a scan was matched at some position. *)
Lemma scan_matched (m : string -> option Re.mres) (s : string) (skip : nat)
  (v : string) :
  In v (Re.scan m skip s) ->
  exists pre s' n, s = pre ++ s' /\ m s' = Some (v, n).
Proof.
  revert skip; induction s as [|c s IH]; intros skip.
  - destruct skip; cbn; [|intros []].
    destruct (m "") as [[w n]|] eqn:E; [|intros []].
    intros [<-|[]]. now exists "", "", n.
  - assert (Tail : forall k, In v (Re.scan m k s) ->
                             exists pre s' n,
                               String c s = pre ++ s' /\ m s' = Some (v, n)).
    { intros k H. destruct (IH k H) as (pre & s' & n & -> & E).
      now exists (String c pre), s', n. }
    destruct skip; cbn [Re.scan]; [|apply Tail].
    destruct (m (String c s)) as [[w n]|] eqn:E; [|apply Tail].
    intros [<-|H]; [|now apply Tail in H].
    now exists "", (String c s), n.
Qed.

Lemma value_prefix_split (stop : ascii -> bool) (s : string) :
  exists rest,
    s = value_prefix stop s ++ rest
    /\ all_chars (fun c => negb (stop c)) (value_prefix stop s) = true
    /\ (rest = "" \/ exists c rest', rest = String c rest' /\ stop c = true).
Proof.
  induction s as [|c s (rest & E & A & R)]; cbn.
  - exists "". repeat split. now left.
  - destruct (stop c) eqn:S; cbn.
    + exists (String c s). repeat split. right. now exists c, s.
    + exists rest. rewrite S, A. repeat split; [now rewrite <- E | exact R].
Qed.

Lemma after_quote_split (s : string) :
  exists q, In q quotings /\ s = q ++ snd (after_quote s).
Proof.
  destruct s as [|c s]; cbn; [exists ""; split; [now left|reflexivity]|].
  unfold is_quote.
  destruct (Ascii.eqb c "'") eqn:E1; cbn.
  - apply Ascii.eqb_eq in E1 as ->. exists "'". split; [right; now left|reflexivity].
  - destruct (Ascii.eqb c dquote) eqn:E2; cbn.
    + apply Ascii.eqb_eq in E2 as ->. exists dq.
      split; [right; right; now left|reflexivity].
    + exists "". split; [now left|reflexivity].
Qed.

Lemma prefix_drop (p s : string) :
  prefix p s = true -> s = p ++ drop (String.length p) s.
Proof.
  intros H. apply prefix_app in H as [post ->]. f_equal.
  induction p as [|c p IH]; cbn; [now destruct post | exact IH].
Qed.

(** What [href_at] reads at a position. *)
Lemma href_at_split (s v : string) (n : nat) :
  href_at stops_of_code s = Some (v, n) ->
  v <> ""
  /\ all_chars (fun c => negb (stops_of_code c)) v = true
  /\ exists q rest,
      In q quotings /\ s = "href=" ++ q ++ v ++ rest
      /\ (rest = "" \/ exists c rest', rest = String c rest'
                                       /\ stops_of_code c = true).
Proof.
  unfold href_at. destruct (prefix "href=" s) eqn:P; [|discriminate].
  apply prefix_drop in P. change (String.length "href=") with 5%nat in P.
  destruct (after_quote_split (drop 5 s)) as (q & Hq & Eq).
  destruct (after_quote (drop 5 s)) as [k s'] eqn:A. cbn [snd] in Eq.
  destruct (value_prefix_split stops_of_code s') as (rest & E & C & R).
  destruct (value_prefix stops_of_code s') as [|c w] eqn:V; [discriminate|].
  intros [= <- _]. split; [discriminate|]. split; [exact C|].
  exists q, rest. split; [exact Hq|]. split; [|exact R].
  rewrite P at 1. now rewrite Eq, E.
Qed.

(** [get_links] returns no link twice, and every link it returns is a
    non-empty text without quote, space or [>] that stands in the page
    right after [href=] and an optional quote, and ends at the end of
    the page or before a quote, a space or [>]. *)
Theorem get_links_sound (html : string) :
  NoDup (get_links html)
  /\ forall v, In v (get_links html) ->
       v <> ""
       /\ all_chars (fun c => negb (stops_of_code c)) v = true
       /\ exists pre q rest,
           In q quotings /\ html = pre ++ "href=" ++ q ++ v ++ rest
           /\ (rest = "" \/ exists c rest', rest = String c rest'
                                            /\ stops_of_code c = true).
Proof.
  split.
  - unfold get_links. apply set_of_strings_NoDup.
  - intros v H. rewrite get_links_href_values in H. unfold href_values in H.
    apply set_of_incl in H.
    apply scan_matched in H as (pre & s' & n & -> & E).
    apply href_at_split in E as (Hne & Hc & q & rest & Hq & -> & R).
    split; [exact Hne|]. split; [exact Hc|].
    now exists pre, q, rest.
Qed.

Lemma get_links_sound_witness :
  "file1.csv" <> ""
  /\ all_chars (fun c => negb (stops_of_code c)) "file1.csv" = true.
Proof.
  destruct (get_links_sound test_page) as [_ H].
  destruct (H "file1.csv") as (H1 & H2 & _).
  - vm_compute. now left.
  - split; assumption.
Defined.

End LinksFound.

(** ** The links kept by [select_valid_urls] *)

Section ValidLinks.
Import UrlEMT Samples Notions.

Lemma matches_at_nil (s : string) : matches_at [] s.
Proof. now eexists. Qed.

Lemma matches_at_lits (l : string) (p : Re.pattern) (s : string) :
  matches_at (Re.lits l ++ p)%list s
  <-> exists rest, s = l ++ rest /\ matches_at p rest.
Proof.
  unfold matches_at. rewrite match_here_lits. split.
  - destruct (prefix l s) eqn:P; [|intros [r H]; discriminate].
    apply prefix_drop in P. intros [r H]. exists (drop (String.length l) s).
    split; [exact P|].
    destruct (Re.match_here p (drop (String.length l) s)) as [r'|];
      [now exists r' | discriminate].
  - intros (rest & -> & r & H).
    replace (prefix l (l ++ rest)) with true
      by (symmetry; apply prefix_app; now exists rest).
    replace (drop (String.length l) (l ++ rest)) with rest
      by (clear; induction l; cbn; [now destruct rest | assumption]).
    rewrite H. cbn. now eexists.
Qed.

Lemma matches_at_one (a : Re.atom) (g : bool) (p : Re.pattern) (s : string) :
  matches_at (Re.Item a Re.One g :: p) s
  <-> exists c rest, s = String c rest /\ Re.atom_match a c = true
                     /\ matches_at p rest.
Proof.
  unfold matches_at. split.
  - destruct s as [|c s]; cbn; [intros [r H]; discriminate|].
    destruct (Re.atom_match a c) eqn:A; [|intros [r H]; discriminate].
    destruct (Re.match_here p s) as [r'|] eqn:E; [|intros [r H]; discriminate].
    intros _. exists c, s. repeat split; auto. now exists r'.
  - intros (c & rest & -> & A & r & H). cbn. rewrite A, H. cbn. now eexists.
Qed.

Lemma matches_at_plus (a : Re.atom) (g : bool) (p : Re.pattern) (s : string) :
  matches_at (Re.Item a Re.Plus g :: p) s
  <-> exists name rest, s = name ++ rest /\ name <> ""
                        /\ all_chars (Re.atom_match a) name = true
                        /\ matches_at p rest.
Proof.
  unfold matches_at. split.
  - induction s as [|c s IH]; cbn [Re.match_here] in *;
      [intros [r H]; discriminate|].
    destruct (Re.atom_match a c) eqn:A; [|intros [r H]; discriminate].
    match goal with
    | |- context [match ?f s with _ => _ end] => destruct (f s) as [r'|] eqn:E
    end.
    + intros _. destruct IH as (name & rest & -> & _ & Hn & Hr);
        [now exists r' |].
      exists (String c name), rest. cbn. rewrite A, Hn.
      repeat split; auto. discriminate.
    + destruct (Re.match_here p s) as [r'|] eqn:E';
        [|intros [r H]; discriminate].
      intros _. exists (String c ""), s. cbn. rewrite A.
      repeat split; auto; [discriminate | now exists r'].
  - intros (name & rest & -> & Hne & Hn & r & H).
    induction name as [|c name IH]; [congruence|].
    cbn in Hn. apply andb_prop in Hn as [A Hn].
    change (String c name ++ rest) with (String c (name ++ rest)).
    cbn [Re.match_here] in *. rewrite A.
    destruct name as [|d name].
    + cbn [append]. clear IH.
      match goal with
      | |- context [match ?f rest with _ => _ end] => destruct (f rest)
      end; [now eexists|].
      rewrite H. cbn. now eexists.
    + destruct IH as [r' ->]; [discriminate | exact Hn |]. now eexists.
Qed.

Lemma search_matches (p : Re.pattern) (s : string) :
  Re.search p s = true <-> exists pre s', s = pre ++ s' /\ matches_at p s'.
Proof.
  unfold matches_at. split.
  - induction s as [|c s IH]; cbn [Re.search].
    + destruct (Re.match_here p "") as [r|] eqn:E; [|discriminate].
      intros _. exists "", "". split; [reflexivity | now exists r].
    + destruct (Re.match_here p (String c s)) as [r|] eqn:E.
      * intros _. exists "", (String c s). split; [reflexivity | now exists r].
      * intros H. destruct (IH H) as (pre & s' & -> & M).
        exists (String c pre), s'. split; [reflexivity | exact M].
  - intros (pre & s' & -> & r & H).
    induction pre as [|c pre IH].
    + change ("" ++ s') with s'.
      destruct s'; cbn [Re.search]; rewrite H; reflexivity.
    + change (String c pre ++ s') with (String c (pre ++ s')).
      cbn [Re.search]. rewrite IH.
      destruct (Re.match_here p (String c (pre ++ s'))); reflexivity.
Qed.

(** The pattern of [select_valid_urls] matches at a position exactly
    when a dated file name starts there. *)
Lemma valid_pattern_dated (s : string) :
  matches_at valid_pattern s <-> starts_dated s.
Proof.
  unfold valid_pattern, starts_dated, is_digit, is_word_or_hyphen.
  replace (Re.lits ".aspx") with (Re.lits ".aspx" ++ [])%list
    by apply app_nil_r.
  split.
  - intros H.
    apply matches_at_lits in H as (s1 & -> & H).
    cbn [app] in H.
    apply matches_at_one in H as (y1 & s2 & -> & D1 & H).
    apply matches_at_one in H as (y2 & s3 & -> & D2 & H).
    apply matches_at_lits in H as (s4 & -> & H).
    cbn [app] in H.
    apply matches_at_one in H as (m1 & s5 & -> & D3 & H).
    apply matches_at_one in H as (m2 & s6 & -> & D4 & H).
    apply matches_at_lits in H as (s7 & -> & H).
    cbn [app] in H.
    apply matches_at_plus in H as (name & s8 & -> & Hne & Hn & H).
    apply matches_at_lits in H as (rest & -> & _).
    exists y1, y2, m1, m2, name, rest. repeat split; auto.
  - intros (y1 & y2 & m1 & m2 & name & rest & -> & D1 & D2 & D3 & D4 & Hne & Hn).
    apply matches_at_lits. eexists. split; [reflexivity|]. cbn [app].
    apply matches_at_one. do 2 eexists. split; [reflexivity|]. split; [exact D1|].
    apply matches_at_one. do 2 eexists. split; [reflexivity|]. split; [exact D2|].
    apply matches_at_lits. eexists. split; [reflexivity|]. cbn [app].
    apply matches_at_one. do 2 eexists. split; [reflexivity|]. split; [exact D3|].
    apply matches_at_one. do 2 eexists. split; [reflexivity|]. split; [exact D4|].
    apply matches_at_lits. eexists. split; [reflexivity|]. cbn [app].
    apply matches_at_plus. exists name, (".aspx" ++ rest).
    split; [reflexivity|]. split; [exact Hne|]. split; [exact Hn|].
    apply matches_at_lits. exists rest. split; [reflexivity|].
    apply matches_at_nil.
Qed.

(** The links kept when the index page answers 200. *)
Lemma select_valid_urls_kept (page : string) :
  exists urls,
    select_valid_urls 200 page = Ok urls
    /\ NoDup urls
    /\ forall url,
        In url urls
        <-> exists link pre rest,
              url = EMT ++ link /\ In link (get_links page)
              /\ link = pre ++ rest /\ starts_dated rest.
Proof.
  unfold select_valid_urls. cbn [Z.eqb Pos.eqb negb].
  eexists. split; [reflexivity|]. split; [apply set_of_strings_NoDup|].
  intros url. rewrite set_of_strings_In, in_map_iff. split.
  - intros (link & <- & H). apply filter_In in H as [Hl Hs].
    apply search_matches in Hs as (pre & rest & -> & M).
    exists (pre ++ rest), pre, rest. repeat split; auto.
    now apply valid_pattern_dated.
  - intros (link & pre & rest & -> & Hl & -> & D).
    exists (pre ++ rest). split; [reflexivity|].
    apply filter_In. split; [exact Hl|].
    apply search_matches. exists pre, rest. split; [reflexivity|].
    now apply valid_pattern_dated.
Qed.


End ValidLinks.

(** ** From the index page to the address of a month *)

Section Resolve.
Import UrlEMT Samples Notions.

(** The file name [get_url] looks for is a dated file name. *)
Lemma file_pattern_dated (month year : Z) (post : string) :
  1 <= month <= 12 -> 21 <= year <= 23 ->
  starts_dated (file_pattern month year ++ post).
Proof.
  intros Hm Hy. unfold starts_dated.
  assert (M : month = 1 \/ month = 2 \/ month = 3 \/ month = 4 \/ month = 5
              \/ month = 6 \/ month = 7 \/ month = 8 \/ month = 9
              \/ month = 10 \/ month = 11 \/ month = 12) by lia.
  assert (Y : year = 21 \/ year = 22 \/ year = 23) by lia.
  exists (match fmt_02d year with String c _ => c | _ => "0"%char end).
  exists (match fmt_02d year with String _ (String c _) => c | _ => "0"%char end).
  exists (match fmt_02d month with String c _ => c | _ => "0"%char end).
  exists (match fmt_02d month with String _ (String c _) => c | _ => "0"%char end).
  exists (month_name month ++ "-csv"), post.
  repeat (destruct M as [->|M]); try subst month;
    repeat (destruct Y as [->|Y]); try subst year;
    (split; [reflexivity|]); repeat split; try reflexivity; discriminate.
Qed.

Lemma contains_prepend (pat pre s : string) :
  contains pat s = true -> contains pat (pre ++ s) = true.
Proof.
  intros H. apply contains_app in H as (a & b & ->).
  apply contains_app. exists (pre ++ a), b. now rewrite string_app_assoc.
Qed.

(** If the index page answers 200 and one of its links contains the
    file name of a month (1..12) of a year (21..23), then the object
    built from the page resolves that month: [get_url] returns one of
    the kept addresses, which starts with [EMT] and contains the file
    name. *)
Theorem page_link_is_resolved (page link : string) (month year : Z) :
  1 <= month <= 12 -> 21 <= year <= 23 ->
  In link (get_links page) ->
  contains (file_pattern month year) link = true ->
  exists urls url,
    select_valid_urls 200 page = Ok urls
    /\ get_url urls month year = Ok url
    /\ In url urls
    /\ prefix EMT url = true
    /\ contains (file_pattern month year) url = true.
Proof.
  intros Hm Hy Hl Hc.
  destruct (select_valid_urls_kept page) as (urls & E & _ & Ch).
  assert (Kept : In (EMT ++ link) urls).
  { apply Ch. apply contains_app in Hc as (pre & post & Hlink).
    exists link, pre, (file_pattern month year ++ post).
    repeat split; auto. now apply file_pattern_dated. }
  exists urls. rewrite (get_url_in_range urls month year Hm Hy).
  pose proof (first_containing_first (file_pattern month year) urls) as F.
  destruct (first_containing (file_pattern month year) urls) as [url|].
  - destruct F as (before & after & Eu & Hu & _).
    assert (Hin : In url urls)
      by (rewrite Eu; apply in_or_app; right; now left).
    exists url. repeat split; auto.
    apply Ch in Hin as (l & _ & _ & -> & _).
    apply prefix_app. now exists l.
  - assert (C : contains (file_pattern month year) (EMT ++ link) = true)
      by now apply contains_prepend.
    rewrite (F _ Kept) in C. discriminate.
Qed.

Lemma page_link_is_resolved_witness :
  exists urls url,
    select_valid_urls 200 test_page = Ok urls
    /\ get_url urls 3 21 = Ok url
    /\ In url urls
    /\ prefix EMT url = true
    /\ contains (file_pattern 3 21) url = true.
Proof.
  apply (page_link_is_resolved test_page "trips_21_03_March-csv.aspx" 3 21).
  - lia.
  - lia.
  - vm_compute. right. now left.
  - reflexivity.
Defined.

(** Whether [get_url] finds an address does not depend on the order in
    which the set of addresses is gone through; and when one address
    only contains the file name, that address is returned in every
    order. *)
Theorem get_url_any_order (urls urls' : list string) (month year : Z) :
  (forall u, In u urls <-> In u urls') ->
  match get_url urls month year, get_url urls' month year with
  | Ok u, Ok u' =>
      In u' urls
      /\ ((forall v w, In v urls -> In w urls ->
                       contains (file_pattern month year) v = true ->
                       contains (file_pattern month year) w = true -> v = w) ->
          u = u')
  | Raise e, Raise e' => e = e'
  | _, _ => False
  end.
Proof.
  intros Same. unfold get_url.
  destruct (negb ((1 <=? month) && (month <=? 12))); [reflexivity|].
  destruct (negb ((21 <=? year) && (year <=? 23))); [reflexivity|].
  cbv zeta.
  pose proof (first_containing_first (file_pattern month year) urls) as F.
  pose proof (first_containing_first (file_pattern month year) urls') as F'.
  destruct (first_containing (file_pattern month year) urls) as [u|];
    destruct (first_containing (file_pattern month year) urls') as [u'|].
  - destruct F as (b & a & E & Hu & _), F' as (b' & a' & E' & Hu' & _).
    assert (I : In u urls) by (rewrite E; apply in_or_app; right; now left).
    assert (I' : In u' urls)
      by (apply Same; rewrite E'; apply in_or_app; right; now left).
    split; [exact I'|]. intros U. now apply U.
  - destruct F as (b & a & E & Hu & _).
    assert (I : In u urls') by (apply Same; rewrite E; apply in_or_app; right; now left).
    rewrite (F' u I) in Hu. discriminate.
  - destruct F' as (b' & a' & E' & Hu' & _).
    assert (I : In u' urls) by (apply Same; rewrite E'; apply in_or_app; right; now left).
    rewrite (F u' I) in Hu'. discriminate.
  - reflexivity.
Qed.

Lemma get_url_any_order_witness :
  match get_url [march_link; EMT] 3 21, get_url [EMT; march_link] 3 21 with
  | Ok u, Ok u' => u = u'
  | _, _ => False
  end.
Proof.
  pose proof (get_url_any_order [march_link; EMT] [EMT; march_link] 3 21) as H.
  cbv beta in H.
  assert (S : forall u, In u [march_link; EMT] <-> In u [EMT; march_link])
    by (intros u; cbn; tauto).
  specialize (H S).
  change (get_url [march_link; EMT] 3 21) with (Ok march_link) in *.
  change (get_url [EMT; march_link] 3 21) with (Ok march_link) in *.
  apply (proj2 H).
  intros v w [<-|[<-|[]]] [<-|[<-|[]]]; intros Hv Hw;
    try reflexivity; discriminate.
Defined.

End Resolve.

(** ** [UrlEMT.get_csv] and [BiciMad.get_data] *)

Section Downloads.
Import UrlEMT Samples Notions Download.






Section GetDataErrors.
Variable read_csv : string -> outcome BiciMad.table.

(** The failures of [get_data] come in the order of its requests.  If
    the index page does not answer 200, [ConnectionError] for that page
    is raised, also for a month or a year out of range; if it does, a
    month or year out of range raises the [ValueError] of [get_url]
    whatever the web holds at any other address; and if the month is
    resolved but its download does not answer 200, the
    [ConnectionError] of the download is raised. *)
Theorem get_data_failures (get : web) (month year : Z) :
  (status_code (get (EMT ++ GENERAL)) <> 200 ->
   get_data read_csv get month year
   = Raises (Exn (ConnectionError
                    ("Could not access " ++ EMT ++ GENERAL
                       ++ ", status code: "
                       ++ str_int (status_code (get (EMT ++ GENERAL)))))))
  /\ (status_code (get (EMT ++ GENERAL)) = 200 ->
      (month < 1 \/ 12 < month) \/ (year < 21 \/ 23 < year) ->
      (exists msg, get_data read_csv get month year = Raises (Exn (ValueError msg))
                   /\ prefix "Invalid " msg = true)
      /\ forall get', get' (EMT ++ GENERAL) = get (EMT ++ GENERAL) ->
                      get_data read_csv get' month year
                      = get_data read_csv get month year)
  /\ (forall urls url,
         init get = Ok urls -> get_url urls month year = Ok url ->
         status_code (get url) <> 200 ->
         get_data read_csv get month year
         = Raises (Exn (ConnectionError
                          ("Failed to download the file, status code: "
                             ++ str_int (status_code (get url)))))).
Proof.
  split; [|split].
  - unfold get_data, init, select_valid_urls.
    intros H. apply Z.eqb_neq in H. now rewrite H.
  - unfold get_data, init, select_valid_urls.
    intros H Bad.
    assert (G : forall urls,
               exists msg, get_url urls month year = Raise (ValueError msg)
                           /\ prefix "Invalid " msg = true).
    { intros urls. unfold get_url.
      destruct ((1 <=? month) && (month <=? 12)) eqn:M; cbn [negb];
        [|eexists; split; reflexivity].
      destruct ((21 <=? year) && (year <=? 23)) eqn:Y; cbn [negb];
        [|eexists; split; reflexivity].
      apply andb_prop in M as [M1 M2], Y as [Y1 Y2].
      apply Z.leb_le in M1, M2, Y1, Y2. lia. }
    split.
    + rewrite H. cbn [Z.eqb Pos.eqb negb of_result and_then].
      unfold get_csv.
      match goal with
      | |- context [get_url ?u month year] => destruct (G u) as (msg & -> & P)
      end.
      exists msg. split; [reflexivity | exact P].
    + intros get' Same. rewrite Same, H.
      cbn [Z.eqb Pos.eqb negb of_result and_then].
      unfold get_csv.
      match goal with
      | |- context [get_url ?u month year] => destruct (G u) as (msg & -> & P)
      end.
      reflexivity.
  - intros urls url I U S. unfold get_data.
    rewrite I. cbn [of_result and_then].
    unfold get_csv. rewrite U. cbn [of_result and_then].
    apply Z.eqb_neq in S. now rewrite S.
Qed.

End GetDataErrors.

Lemma get_data_failures_witness :
  get_data (fun _ => Returns []) (fun _ => Response 404 "" []) 0 22
  = Raises (Exn (ConnectionError
                   ("Could not access " ++ EMT ++ GENERAL
                      ++ ", status code: 404"))).
Proof.
  apply (proj1 (get_data_failures (fun _ => Returns [])
                  (fun _ => Response 404 "" []) 0 22)).
  discriminate.
Defined.

End Downloads.

(** ** What [clean] keeps *)

Section CleanKeeps.
Import BiciMad Fixture Notions.



Lemma clean_columns_length (cs : list id_column) (t : table) :
  List.length (fst (clean_columns cs t)) = List.length t.
Proof.
  rewrite <- (length_map all_null), clean_columns_all_null.
  apply length_map.
Qed.

Lemma filter_split_length {A : Type} (f : A -> bool) (l : list A) :
  (List.length (filter (fun x => negb (f x)) l) + List.length (filter f l)
   = List.length l)%nat.
Proof.
  induction l as [|x l IH]; cbn; [reflexivity|].
  destruct (f x); cbn; lia.
Qed.

(** Whatever its outcome, [clean] leaves as many rows as the table had
    rows with some column present: [total_uses] goes down by the number
    of rows whose columns are all missing, and by nothing else. *)
Theorem clean_row_count (t : table) :
  total_uses (fst (clean t)) = total_uses t - Z.of_nat (empty_rows t)
  /\ total_uses (fst (clean t)) <= total_uses t
  /\ (empty_rows t = 0%nat -> List.length (fst (clean t)) = List.length t).
Proof.
  unfold total_uses, clean, empty_rows.
  rewrite clean_columns_length. unfold dropna_all.
  pose proof (filter_split_length all_null t). lia.
Qed.





Lemma normalize_clean_id (x y : value) :
  normalize x = Ok y -> is_clean_id y = true.
Proof.
  destruct x as [[f|z|b]|s]; unfold normalize; cbn.
  - destruct (F64.is_nan f) eqn:N; cbn.
    + intros [= <-]. cbn. now rewrite N.
    + destruct (F64.trunc f); cbn; [|discriminate].
      intros [= <-]. apply str_int_no_alpha.
  - intros [= <-]. apply str_int_no_alpha.
  - intros [= <-]. apply str_int_no_alpha.
  - intros [= <-]. apply strip_alpha_no_alpha.
Qed.

(** A call that ended well went through the four columns. *)
Lemma clean_ok_cleaned (t t' : table) :
  clean t = (t', Ok tt) ->
  Forall2 (columns_cleaned [Cfleet; CidBike; Cstation_lock; Cstation_unlock])
    (dropna_all t) t'.
Proof.
  unfold clean. intros E.
  pose proof (clean_columns_cases
                [Cfleet; CidBike; Cstation_lock; Cstation_unlock]
                (dropna_all t)) as C.
  assert (ND : NoDup [Cfleet; CidBike; Cstation_lock; Cstation_unlock])
    by (repeat constructor; cbn; intuition discriminate).
  specialize (C ND).
  destruct (forallb (column_finite (dropna_all t)) _).
  - destruct C as (t'' & E' & R). rewrite E in E'. now injection E' as <-.
  - destruct C as (t'' & E' & _). rewrite E in E'. discriminate.
Qed.

Lemma Forall2_In_r {A B : Type} (R : A -> B -> Prop) (l : list A)
  (l' : list B) (y : B) :
  Forall2 R l l' -> In y l' -> exists x, In x l /\ R x y.
Proof.
  induction 1 as [|a b l l' Hab _ IH]; cbn; [tauto|].
  intros [<-|H].
  - exists a. split; [now left | exact Hab].
  - destruct (IH H) as (x & Hx & Rx). exists x. split; [now right | exact Rx].
Qed.

Lemma Forall2_In_l {A B : Type} (R : A -> B -> Prop) (l : list A)
  (l' : list B) (x : A) :
  Forall2 R l l' -> In x l -> exists y, In y l' /\ R x y.
Proof.
  induction 1 as [|a b l l' Hab _ IH]; cbn; [tauto|].
  intros [<-|H].
  - exists b. split; [now left | exact Hab].
  - destruct (IH H) as (y & Hy & Ry). exists y. split; [now right | exact Ry].
Qed.

(** After a call of [clean] that ended well, every cell of [fleet],
    [idBike], [station_lock] and [station_unlock] is missing or is a
    text without ASCII letters: no number and no letter is left in the
    identifier columns. *)
Theorem clean_ids_without_letters (t t' : table) :
  clean t = (t', Ok tt) ->
  forall r c, In r t' -> is_clean_id (get_col c r) = true.
Proof.
  intros E r c Hr.
  destruct (Forall2_In_r _ _ _ r (clean_ok_cleaned t t' E) Hr)
    as (r0 & _ & (_ & H)).
  apply normalize_clean_id with (x := get_col c r0).
  apply (proj1 (H c)). destruct c; cbn; auto.
Qed.

Lemma clean_ids_without_letters_witness :
  Forall (fun r => is_clean_id (station_unlock r) = true) (fst (clean fake_csv)).
Proof.
  apply Forall_forall. intros r Hr.
  exact (clean_ids_without_letters fake_csv (fst (clean fake_csv)) eq_refl
           r Cstation_unlock Hr).
Defined.

End CleanKeeps.

(** ** When the statistics are defined *)

Section StatisticsDefined.
Import BiciMad Fixture Notions Report.

Lemma station_count_bounds (t : table) (r : row) :
  In r t -> notna (station_unlock r) = true ->
  (1 <= station_count t (station_unlock r) <= List.length t)%nat.
Proof.
  intros Hr Hn. unfold station_count. split.
  - rewrite <- count_keys_of.
    apply count_key_pos with (valid := fun k => notna k = true); auto.
    + exact py_eqb_refl.
    + apply In_keys_of. exists r. split; [exact Hr|].
      now apply station_key_some.
  - unfold rows_in_group. generalize (fun r0 : row =>
      match station_key r0 with
      | Some k' => py_eqb (station_unlock r) k'
      | None => false
      end). intros f. clear.
    induction t as [|x t IH]; cbn; [lia|]. destruct (f x); cbn; lia.
Qed.

(** What [usage_from_most_popular_station] does, case by case. *)
Lemma usage_outcome (t : table) :
  match usage_from_most_popular_station t with
  | Ok z =>
      exists n, z = Z.of_nat n
        /\ (exists r, In r t /\ notna (station_unlock r) = true
                      /\ station_count t (station_unlock r) = n)
        /\ (forall r, In r t -> notna (station_unlock r) = true ->
                      (station_count t (station_unlock r) <= n)%nat)
  | Raise e =>
      e = ValueError "cannot convert float NaN to integer"
      /\ forall r, In r t -> notna (station_unlock r) = false
  end.
Proof.
  unfold usage_from_most_popular_station.
  set (keys := keys_of station_key t).
  destruct (group_sizes_entries py_eqb (fun k => notna k = true)
              py_eqb_refl py_eqb_sym py_eqb_trans keys
              (station_keys_valid t)) as [Ent Cov].
  pose proof (max_count_spec (group_sizes py_eqb keys)) as M.
  destruct (max_count (group_sizes py_eqb keys)) as [m|].
  - destruct M as [(k & Hk) Hle]. exists m. split; [reflexivity|]. split.
    + destruct (Ent k m Hk) as [Kin ->].
      apply In_keys_of in Kin as (r & Hr & Hs).
      apply station_key_some in Hs as [Hn ->].
      exists r. repeat split; auto.
      unfold station_count. now rewrite <- count_keys_of.
    + intros r Hr Hn.
      assert (Kr : In (station_unlock r) keys).
      { apply In_keys_of. exists r. split; [exact Hr|].
        now apply station_key_some. }
      destruct (Cov _ Kr) as (k' & n' & Hin & E).
      destruct (Ent k' n' Hin) as [_ ->].
      specialize (Hle k' _ Hin).
      unfold station_count. rewrite <- count_keys_of. fold keys.
      rewrite <- (count_key_equal py_eqb py_eqb_sym py_eqb_trans
                    k' (station_unlock r) keys E).
      exact Hle.
  - split; [reflexivity|]. intros r Hr.
    destruct (notna (station_unlock r)) eqn:N; [|reflexivity].
    assert (Kr : In (station_unlock r) keys).
    { apply In_keys_of. exists r. split; [exact Hr|].
      now apply station_key_some. }
    destruct (Cov _ Kr) as (k' & n' & Hin & _).
    rewrite M in Hin. destruct Hin.
Qed.

Lemma pair_key_some (r : row) (k : value * value) :
  pair_key r = Some k
  <-> notna (station_unlock r) = true /\ notna (address_unlock r) = true
      /\ k = (station_unlock r, address_unlock r).
Proof.
  unfold pair_key.
  destruct (notna (station_unlock r)), (notna (address_unlock r)); cbn;
    split; try discriminate; try (now intros [= <-]);
    try (now intros (_ & _ & ->)); intros (H1 & H2 & _); discriminate.
Qed.

Lemma most_popular_stations_none (t : table) :
  (forall r, In r t ->
             notna (station_unlock r) && notna (address_unlock r) = false) ->
  most_popular_stations t = [].
Proof.
  intros None. unfold most_popular_stations.
  assert (K : keys_of pair_key t = []).
  { destruct (keys_of pair_key t) as [|k keys'] eqn:EK; [reflexivity|].
    assert (Kin : In k (keys_of pair_key t)) by (rewrite EK; now left).
    apply In_keys_of in Kin as (r & Hr & Hk).
    apply pair_key_some in Hk as (N1 & N2 & _).
    specialize (None r Hr). now rewrite N1, N2 in None. }
  rewrite K. reflexivity.
Qed.

(** [most_popular_stations] returns the empty set exactly when no row
    has both a [station_unlock] and an [address_unlock]; and it never
    returns a missing value. *)
Theorem most_popular_stations_empty (t : table) :
  (most_popular_stations t = []
   <-> forall r, In r t ->
                 notna (station_unlock r) && notna (address_unlock r) = false)
  /\ forall a, In a (most_popular_stations t) -> notna a = true.
Proof.
  unfold most_popular_stations.
  set (keys := keys_of pair_key t).
  set (counts := group_sizes pair_eqb keys).
  destruct (group_sizes_entries pair_eqb valid_pair
              pair_eqb_refl pair_eqb_sym pair_eqb_trans keys
              (pair_keys_valid t)) as [Ent Cov].
  fold counts in Ent, Cov.
  pose proof (max_count_spec counts) as M.
  pose proof (pair_keys_valid t) as V. fold keys in V.
  rewrite Forall_forall in V.
  split; [split|].
  - intros E r Hr.
    destruct (notna (station_unlock r) && notna (address_unlock r)) eqn:N;
      [|reflexivity].
    apply andb_prop in N as [N1 N2].
    assert (Kr : In (station_unlock r, address_unlock r) keys).
    { apply In_keys_of. exists r. split; [exact Hr|].
      now apply pair_key_some. }
    destruct (Cov _ Kr) as (k' & n' & Hin & _).
    destruct (max_count counts) as [m|]; [|rewrite M in Hin; destruct Hin].
    destruct M as [(k & Hk) _].
    assert (I : In (snd k) (map (fun kc => snd (fst kc))
                              (with_count (Some m) counts))).
    { apply in_map_iff. exists (k, m). split; [reflexivity|].
      apply with_count_In. now split. }
    destruct (map (fun kc => snd (fst kc)) (with_count (Some m) counts));
      [destruct I | discriminate E].
  - intros None. now apply most_popular_stations_none.
  - intros a Ha. apply set_of_incl in Ha.
    apply in_map_iff in Ha as ([k n] & <- & H).
    apply with_count_In in H as [Hin _].
    destruct (Ent k n Hin) as [Kin _]. apply (V k Kin).
Qed.

(** [resume] raises [ValueError] exactly when no row has a
    [station_unlock] (an empty table, or one of rows of missing values);
    then [most_popular_stations] is empty too.  Otherwise it returns the
    year and the month it was made for, the number of rows, and a number
    of uses of the most popular station between 1 and the number of
    rows. *)
Theorem resume_outcome (month year : Z) (t : table) :
  match resume month year t with
  | Ok s =>
      s_year s = year /\ s_month s = month
      /\ s_total_uses s = Z.of_nat (List.length t)
      /\ 1 <= s_uses_from_most_popular s <= s_total_uses s
      /\ exists r, In r t /\ notna (station_unlock r) = true
  | Raise e =>
      e = ValueError "cannot convert float NaN to integer"
      /\ (forall r, In r t -> notna (station_unlock r) = false)
      /\ most_popular_stations t = []
  end.
Proof.
  unfold resume. pose proof (usage_outcome t) as U.
  destruct (usage_from_most_popular_station t) as [z|e]; cbn.
  - destruct U as (n & -> & (r & Hr & Hn & <-) & _).
    repeat split; try reflexivity.
    + pose proof (station_count_bounds t r Hr Hn). lia.
    + unfold total_uses. pose proof (station_count_bounds t r Hr Hn). lia.
    + now exists r.
  - destruct U as [-> None]. repeat split; auto.
    apply most_popular_stations_none.
    intros r Hr. now rewrite (None r Hr).
Qed.

End StatisticsDefined.

(** ** [clean] and the most popular station *)

Section CleanMerges.
Import BiciMad Fixture Notions.

Lemma truncation_unique (q q' : Q) (z z' : Z) :
  truncation_of q z -> truncation_of q' z' -> (q == q')%Q -> z = z'.
Proof.
  intros [P N] [P' N'] E. rewrite <- E in P', N'.
  destruct (Qlt_le_dec q 0) as [Neg|Pos].
  - apply Qlt_le_weak in Neg.
    destruct (N Neg) as [L U], (N' Neg) as [L' U'].
    assert (H1 : (inject_Z (z - 1) < inject_Z z')%Q)
      by (eapply Qlt_le_trans; eauto).
    assert (H2 : (inject_Z (z' - 1) < inject_Z z)%Q)
      by (eapply Qlt_le_trans; eauto).
    rewrite <- Zlt_Qlt in H1, H2. lia.
  - destruct (P Pos) as [L U], (P' Pos) as [L' U'].
    assert (H1 : (inject_Z z < inject_Z (z' + 1))%Q)
      by (eapply Qle_lt_trans; eauto).
    assert (H2 : (inject_Z z' < inject_Z (z + 1))%Q)
      by (eapply Qle_lt_trans; eauto).
    rewrite <- Zlt_Qlt in H1, H2. lia.
Qed.

Lemma py_int_exact (n : number) (z : Z) :
  py_int n = Ok z ->
  exists q, num_exact n = F64.Fin q /\ truncation_of q z.
Proof.
  destruct n as [f|i|b]; cbn.
  - destruct (F64.trunc f) as [z'|] eqn:T.
    + intros [= <-]. now apply trunc_truncation.
    + destruct (F64.is_nan f); discriminate.
  - intros [= <-]. eexists. split; [reflexivity|]. apply truncation_of_integer.
  - intros [= <-]. eexists. split; [reflexivity|]. apply truncation_of_integer.
Qed.

Lemma normalize_number (n : number) (y : value) :
  notna (Num n) = true -> normalize (Num n) = Ok y ->
  exists z, py_int n = Ok z /\ y = Str (str_int z).
Proof.
  intros N. unfold normalize. rewrite N. cbn [is_number andb].
  destruct (py_int n) as [z|e]; cbn; [|discriminate].
  intros [= <-]. now exists z.
Qed.

(** Two cells that are equal for [==] are normalized to the same text:
    [clean] merges groups and never splits one. *)
Lemma normalize_equal (x y x' y' : value) :
  py_eqb x y = true -> normalize x = Ok x' -> normalize y = Ok y' ->
  x' = y'.
Proof.
  intros E Hx Hy.
  pose proof (py_eqb_null _ _ E) as Ny.
  rewrite py_eqb_sym in E. pose proof (py_eqb_null _ _ E) as Nx.
  destruct x as [a|s], y as [b|s']; cbn in E; try discriminate.
  - destruct (normalize_number a x' Nx Hx) as (za & Ia & ->).
    destruct (normalize_number b y' Ny Hy) as (zb & Ib & ->).
    destruct (py_int_exact a za Ia) as (qa & Ea & Ta).
    destruct (py_int_exact b zb Ib) as (qb & Eb & Tb).
    rewrite Ea, Eb in E. cbn in E. apply Qeq_bool_iff in E.
    f_equal. f_equal. symmetry. now apply (truncation_unique qb qa).
  - apply String.eqb_eq in E as ->. rewrite Hx in Hy. now injection Hy.
Qed.

Lemma Forall2_filter_le {A B : Type} (R : A -> B -> Prop)
  (f : A -> bool) (g : B -> bool) (l : list A) (l' : list B) :
  Forall2 R l l' ->
  (forall x y, R x y -> f x = true -> g y = true) ->
  (List.length (filter f l) <= List.length (filter g l'))%nat.
Proof.
  intros H Imp. induction H as [|x y l l' Rxy _ IH]; cbn; [lia|].
  destruct (f x) eqn:F.
  - rewrite (Imp x y Rxy F). cbn. lia.
  - destruct (g y); cbn; lia.
Qed.

Lemma filter_filter_length {A : Type} (f g : A -> bool) (l : list A) :
  (forall x, f x = true -> g x = true) ->
  List.length (filter f (filter g l)) = List.length (filter f l).
Proof.
  intros Imp. induction l as [|x l IH]; cbn; [reflexivity|].
  destruct (g x) eqn:G; cbn.
  - destruct (f x); cbn; now rewrite IH.
  - destruct (f x) eqn:F; [|exact IH].
    rewrite (Imp x F) in G. discriminate.
Qed.

Lemma all_null_no_station (r : row) :
  all_null r = true -> notna (station_unlock r) = false.
Proof.
  unfold all_null, isnull. intros A.
  repeat (apply andb_prop in A as [A ?]).
  now apply negb_true_iff.
Qed.

(** The rows that shared a station before a call of [clean] that ended
    well share one after it. *)
Lemma clean_station_count (t t' : table) (r r' : row) :
  clean t = (t', Ok tt) ->
  notna (station_unlock r) = true ->
  normalize (station_unlock r) = Ok (station_unlock r') ->
  (station_count t (station_unlock r)
   <= station_count t' (station_unlock r'))%nat.
Proof.
  intros E N Hr. unfold station_count, rows_in_group.
  pose proof (clean_ok_cleaned t t' E) as C.
  rewrite <- (filter_filter_length _ (fun x => negb (all_null x)) t).
  - fold (dropna_all t).
    apply Forall2_filter_le
      with (R := columns_cleaned
                   [Cfleet; CidBike; Cstation_lock; Cstation_unlock]);
      [exact C|].
    intros x y (_ & H).
    pose proof (proj1 (H Cstation_unlock)) as Hs. cbn in Hs.
    specialize (Hs (or_intror (or_intror (or_intror (or_introl eq_refl))))).
    unfold station_key.
    destruct (notna (station_unlock x)) eqn:Nx; [|discriminate].
    intros Eq.
    rewrite (normalize_notna _ _ Hs), Nx.
    rewrite <- (normalize_equal _ _ _ _ Eq Hr Hs).
    apply py_eqb_refl. now rewrite (normalize_notna _ _ Hr).
  - intros x. unfold station_key.
    destruct (all_null x) eqn:A; [|reflexivity].
    now rewrite (all_null_no_station x A).
Qed.

(** A call of [clean] that ended well never lowers
    [usage_from_most_popular_station]: if it was defined before the
    call, it is defined after it and at least as large. *)
Theorem clean_raises_usage (t t' : table) (n : Z) :
  clean t = (t', Ok tt) ->
  usage_from_most_popular_station t = Ok n ->
  exists n', usage_from_most_popular_station t' = Ok n' /\ n <= n'.
Proof.
  intros E U.
  pose proof (usage_outcome t) as O. rewrite U in O.
  destruct O as (m & -> & (r & Hr & N & <-) & _).
  assert (Kept : In r (dropna_all t)).
  { apply filter_In. split; [exact Hr|].
    destruct (all_null r) eqn:A; [|reflexivity].
    now rewrite (all_null_no_station r A) in N. }
  destruct (Forall2_In_l _ _ _ r (clean_ok_cleaned t t' E) Kept)
    as (r' & Hr' & (_ & H)).
  pose proof (proj1 (H Cstation_unlock)) as Hs. cbn in Hs.
  specialize (Hs (or_intror (or_intror (or_intror (or_introl eq_refl))))).
  pose proof (clean_station_count t t' r r' E N Hs) as Le.
  assert (N' : notna (station_unlock r') = true)
    by now rewrite (normalize_notna _ _ Hs).
  pose proof (usage_outcome t') as O'.
  destruct (usage_from_most_popular_station t') as [z|e].
  - destruct O' as (m' & -> & _ & Max). exists (Z.of_nat m').
    split; [reflexivity|]. specialize (Max r' Hr' N'). lia.
  - destruct O' as [_ None]. rewrite (None r' Hr') in N'. discriminate.
Qed.

Lemma clean_raises_usage_witness :
  exists n', usage_from_most_popular_station (fst (clean fake_csv)) = Ok n'
             /\ 1 <= n'.
Proof.
  apply (clean_raises_usage fake_csv (fst (clean fake_csv)) 1);
    reflexivity.
Defined.

End CleanMerges.

(** ** The addresses of the site *)

Section MonthUrls.
Import UrlEMT Samples Notions.

Lemma accepted_range (month year : Z) :
  1 <= month <= 12 -> 21 <= year <= 23 -> In (month, year) accepted.
Proof.
  intros Hm Hy. unfold accepted. apply in_prod.
  - cbn. lia.
  - cbn. lia.
Qed.

Lemma month_url_contains_table :
  forallb (fun a =>
             forallb (fun b =>
                        Bool.eqb (contains (file_pattern (fst b) (snd b))
                                    (month_url a))
                          (same_month a b))
               accepted)
    accepted = true.
Proof. vm_compute. reflexivity. Qed.

(** The address of a month contains the file name of that month and of
    no other month. *)
Lemma month_url_contains (a b : Z * Z) :
  In a accepted -> In b accepted ->
  contains (file_pattern (fst b) (snd b)) (month_url a) = same_month a b.
Proof.
  intros Ha Hb. pose proof month_url_contains_table as T.
  rewrite forallb_forall in T. specialize (T a Ha).
  rewrite forallb_forall in T. specialize (T b Hb).
  now apply Bool.eqb_prop in T.
Qed.

(** For an object that keeps the addresses of a list of months,
    [get_url] returns the address of the month asked for when the month
    is in the list, and raises [ValueError] (no valid link) when it is
    not: no address is returned for another month. *)
Theorem get_url_month_urls (months : list (Z * Z)) (month year : Z) :
  (forall my, In my months -> In my accepted) ->
  1 <= month <= 12 -> 21 <= year <= 23 ->
  get_url (map month_url months) month year
  = if existsb (fun my => same_month my (month, year)) months
    then Ok (month_url (month, year))
    else Raise (ValueError ("No valid link found for "
                              ++ fmt_02d month ++ "/" ++ fmt_02d year)).
Proof.
  intros Acc Hm Hy. rewrite (get_url_in_range _ month year Hm Hy).
  pose proof (accepted_range month year Hm Hy) as A.
  induction months as [|my months IH]; [reflexivity|].
  cbn [map first_containing existsb].
  pose proof (month_url_contains my (month, year)
                (Acc my (or_introl eq_refl)) A) as C.
  cbn [fst snd] in C. rewrite C.
  destruct (same_month my (month, year)) eqn:E; cbn [orb].
  - unfold same_month in E. apply andb_prop in E as [E1 E2].
    apply Z.eqb_eq in E1, E2. cbn in E1, E2. destruct my as [m y].
    cbn in E1, E2. now subst.
  - apply IH. intros my' H. apply Acc. now right.
Qed.

Lemma get_url_month_urls_witness :
  get_url (map month_url [(1, 21); (3, 21)]) 3 21 = Ok (month_url (3, 21))
  /\ get_url (map month_url [(1, 21); (3, 21)]) 2 21
     = Raise (ValueError "No valid link found for 02/21").
Proof.
  assert (Acc : forall my, In my [(1, 21); (3, 21)] -> In my accepted)
    by (intros my [<-|[<-|[]]]; apply accepted_range; lia).
  split.
  - apply (get_url_month_urls [(1, 21); (3, 21)] 3 21 Acc); lia.
  - apply (get_url_month_urls [(1, 21); (3, 21)] 2 21 Acc); lia.
Defined.

End MonthUrls.

(** ** [total_time] without durations *)

Section NoDurations.
Import BiciMad Fixture Notions.

(** When no row has a duration (the table is empty, or every
    [trip_minutes] is missing), [total_time] is zero and not NaN. *)
Theorem total_time_no_duration (t : table) :
  forallb (fun r => F64.is_nan (trip_minutes r)) t = true ->
  total_time t = F64.zero.
Proof.
  intros H. unfold total_time, nansum.
  assert (S : fold_left F64.add
                (map (fun x => if F64.is_nan x then F64.zero else x)
                   (map trip_minutes t)) F64.zero = F64.zero).
  { induction t as [|r t IH]; [reflexivity|].
    cbn in H. apply andb_prop in H as [Hr Ht].
    cbn. rewrite Hr. cbn. now apply IH. }
  rewrite S. reflexivity.
Qed.

Lemma total_time_no_duration_witness :
  total_time [empty_row; empty_row] = F64.zero.
Proof. apply (total_time_no_duration [empty_row; empty_row]). reflexivity. Defined.

End NoDurations.
